(** * The image optimisation worker: parser, width resolver and request handler

    A shallow embedding of the Cloudflare image worker of the gallery site
    (the [imageApp] module: [parseTransformOptions], [getResponsiveWidth] and
    the [/cdn-cgi/image/:options/*] route), together with the ECMAScript
    built-ins the worker calls, and the properties of the worker that the
    design document states; then the site's image addresses, its pages
    and the migration scripts.

    Conventions of the embedding.
    - A JavaScript string is a [string]; a character stands for one code
      unit below 256.
    - A JavaScript number is a signed decimal [m * 10^e], NaN or an
      infinity.  [parseInt] rounds what it reads to binary64, as the
      engine does, and overflows to an infinity.  [parseFloat] keeps the
      decimal it reads and [Number::toString] prints a decimal as it is:
      they are the engine's on the integers below 2^53, and no statement
      relies on their values elsewhere, only on whether a value is NaN.
    - A JavaScript object is an association list in insertion order, the
      order [JSON.stringify] prints.
    - The bucket and the image binding are external: they are fields of an
      environment record and every call to them is logged.
    - A request is one the router has matched with the pattern of a
      route.  The router binds the named parameters of the pattern; the
      wildcard of a pattern is no name, and [c.req.param('*')] is
      undefined for every request.
    - The [cache] middleware the framework puts in front of the image
      route, and the headers the framework adds to a text answer, are
      outside the model. *)

From Stdlib Require Import String Ascii List ZArith NArith Bool Lia.
From Stdlib Require Import DecimalString Sorted.
From Stdlib Require DecimalFacts DecimalPos DecimalN.
Import ListNotations.
Local Open Scope string_scope.
Local Open Scope Z_scope.

(** ** ECMAScript built-ins *)

Module JS.

(** *** Strings *)

Definition nonempty (s : string) : bool :=
  match s with EmptyString => false | String _ _ => true end.

(** [s.split(sep)] for a one-character separator. *)
Fixpoint split (sep : ascii) (s : string) : list string :=
  match s with
  | EmptyString => [EmptyString]
  | String c r =>
      if Ascii.eqb c sep then EmptyString :: split sep r
      else match split sep r with
           | [] => [String c EmptyString]
           | h :: t => String c h :: t
           end
  end.

(** [s.includes(needle)]. *)
Fixpoint includes (needle s : string) : bool :=
  String.prefix needle s
  || match s with
     | EmptyString => false
     | String _ r => includes needle r
     end.

Definition lower_ascii (c : ascii) : ascii :=
  let n := nat_of_ascii c in
  if ((65 <=? n) && (n <=? 90))%nat then ascii_of_nat (n + 32) else c.

Fixpoint toLowerCase (s : string) : string :=
  match s with
  | EmptyString => EmptyString
  | String c r => String (lower_ascii c) (toLowerCase r)
  end.

(** [/a|b|.../i.test(s)] for literal alternatives: some alternative
    occurs in [s], letters compared without case. *)
Definition test_alt_i (alts : list string) (s : string) : bool :=
  existsb (fun a => includes (toLowerCase a) (toLowerCase s)) alts.

(** *** Numbers *)

Inductive number : Type :=
| NaN
| Infinity (neg : bool)
| Finite (neg : bool) (m : N) (e : Z).   (* (-1)^neg * m * 10^e *)

Definition of_Z (z : Z) : number := Finite (z <? 0) (Z.abs_N z) 0.

(** ToBoolean on a number: NaN, +0 and -0 are falsy. *)
Definition number_truthy (n : number) : bool :=
  match n with
  | NaN => false
  | Infinity _ => true
  | Finite _ m _ => negb (N.eqb m 0)
  end.

(** The integer a number denotes, when it denotes one written without
    exponent (every finite result of [parseInt] does). *)
Definition to_Z (n : number) : option Z :=
  match n with
  | Finite neg m 0 => Some (if neg then - Z.of_N m else Z.of_N m)
  | _ => None
  end.

(** StrWhiteSpaceChar, among the code units below 256. *)
Definition is_space (c : ascii) : bool :=
  let n := nat_of_ascii c in
  ((9 <=? n) && (n <=? 13) || (n =? 32) || (n =? 160))%nat.

Fixpoint trimStart (s : string) : string :=
  match s with
  | String c r => if is_space c then trimStart r else s
  | EmptyString => EmptyString
  end.

Definition digit_val (radix : N) (c : ascii) : option N :=
  let n := N_of_ascii c in
  let d := (if (48 <=? n) && (n <=? 57) then Some (n - 48)
            else if (97 <=? n) && (n <=? 122) then Some (n - 87)
            else if (65 <=? n) && (n <=? 90) then Some (n - 55)
            else None)%N in
  match d with
  | Some v => if (v <? radix)%N then Some v else None
  | None => None
  end.

(** Reads the longest run of radix digits at the head of [s]: the number
    of digits read, the value of [acc] followed by them, and the rest. *)
Fixpoint read_digits (radix : N) (s : string) (acc : N) (cnt : nat)
  : nat * N * string :=
  match s with
  | String c r =>
      match digit_val radix c with
      | Some d => read_digits radix r (acc * radix + d)%N (S cnt)
      | None => (cnt, acc, s)
      end
  | EmptyString => (cnt, acc, s)
  end.

(** An optional sign at the head of [s]. *)
Definition read_sign (s : string) : bool * string :=
  match s with
  | String "-" r => (true, r)
  | String "+" r => (false, r)
  | _ => (false, s)
  end.

(** The Number value of a non-negative integer: the nearest binary64,
    ties to the even significand; [None] past the largest one, where the
    engine gives an infinity. *)
Definition to_binary64 (v : N) : option N :=
  if (v <? 2 ^ 53)%N then Some v
  else
    let k := (N.size v - 53)%N in
    let q := N.shiftr v k in
    let r := (v - N.shiftl q k)%N in
    let half := (2 ^ (k - 1))%N in
    let q' := if ((half <? r) || ((r =? half) && N.odd q))%N
              then (q + 1)%N else q in
    let v' := N.shiftl q' k in
    if (v' <? 2 ^ 1024)%N then Some v' else None.

(** [parseInt(s)], radix argument absent. *)
Definition parseInt (s : string) : number :=
  let '(neg, s1) := read_sign (trimStart s) in
  let '(radix, s2) :=
    match s1 with
    | String "0" (String "x" r) => (16%N, r)
    | String "0" (String "X" r) => (16%N, r)
    | _ => (10%N, s1)
    end in
  let '(cnt, v, _) := read_digits radix s2 0%N 0%nat in
  match cnt with
  | O => NaN
  | S _ => match to_binary64 v with
           | Some v' => Finite neg v' 0
           | None => Infinity neg
           end
  end.

(** [parseFloat(s)]: the longest prefix that is a StrDecimalLiteral, as
    the decimal it denotes; the engine rounds that decimal to binary64.
    The result is NaN exactly when the engine's is. *)
Definition parseFloat (s : string) : number :=
  let '(neg, s1) := read_sign (trimStart s) in
  if String.prefix "Infinity" s1 then Infinity neg else
  let '(ni, vi, s2) := read_digits 10 s1 0%N 0%nat in
  let '(nf, vf, s3) :=
    match s2 with
    | String "." r => read_digits 10 r vi 0%nat
    | _ => (0%nat, vi, s2)
    end in
  match ni, nf with
  | O, O => NaN
  | _, _ =>
      let ex :=
        match s3 with
        | String c r =>
            if (Ascii.eqb c "e" || Ascii.eqb c "E")%bool then
              let '(eneg, r1) := read_sign r in
              let '(ne, ve, _) := read_digits 10 r1 0%N 0%nat in
              match ne with
              | O => 0
              | S _ => if eneg then - Z.of_N ve else Z.of_N ve
              end
            else 0
        | EmptyString => 0
        end in
      Finite neg vf (ex - Z.of_nat nf)
  end.

(** *** Number::toString and JSON.stringify *)

Definition digits_of_N (n : N) : string :=
  NilZero.string_of_uint (N.to_uint n).

Fixpoint zeros (k : nat) : string :=
  match k with O => EmptyString | S k' => String "0" (zeros k') end.

(** Strips the factors 10 of a non-zero mantissa into the exponent. *)
Fixpoint normalize (fuel : nat) (m : N) (e : Z) : N * Z :=
  match fuel with
  | O => (m, e)
  | S f => if ((m mod 10 =? 0) && negb (m =? 0))%N
           then normalize f (m / 10)%N (e + 1) else (m, e)
  end.

Definition exponent_string (x : Z) : string :=
  (if x <? 0 then "-" else "+") ++ digits_of_N (Z.abs_N x).

(** Number::toString(x), radix 10, for a finite [x] given as a decimal:
    the engine's text for the integers below 2^53. *)
Definition toString_finite (neg : bool) (m : N) (e : Z) : string :=
  if (m =? 0)%N then "0" else
  let '(s, e') := normalize (N.to_nat (N.size m)) m e in
  let ds := digits_of_N s in
  let k := Z.of_nat (String.length ds) in
  let n := k + e' in
  let body :=
    if (k <=? n) && (n <=? 21) then ds ++ zeros (Z.to_nat (n - k))
    else if (0 <? n) && (n <=? 21) then
      substring 0 (Z.to_nat n) ds ++ "." ++
      substring (Z.to_nat n) (Z.to_nat (k - n)) ds
    else if (-6 <? n) && (n <=? 0) then "0." ++ zeros (Z.to_nat (- n)) ++ ds
    else if k =? 1 then ds ++ "e" ++ exponent_string (n - 1)
    else substring 0 1 ds ++ "." ++ substring 1 (Z.to_nat (k - 1)) ds
         ++ "e" ++ exponent_string (n - 1) in
  (if neg then "-" else EmptyString) ++ body.

Definition hex_digit (n : nat) : ascii :=
  if (n <? 10)%nat then ascii_of_nat (48 + n) else ascii_of_nat (87 + n).

Definition backslash : ascii := ascii_of_nat 92.

(** QuoteJSONString, character by character. *)
Definition quote_char (c : ascii) : string :=
  let n := nat_of_ascii c in
  if (n =? 8)%nat then "\b"
  else if (n =? 9)%nat then "\t"
  else if (n =? 10)%nat then "\n"
  else if (n =? 12)%nat then "\f"
  else if (n =? 13)%nat then "\r"
  else if (n =? 34)%nat then String backslash (String c EmptyString)
  else if (n =? 92)%nat then String backslash (String backslash EmptyString)
  else if (n <? 32)%nat then
    "\u00" ++ String (hex_digit (n / 16)) (String (hex_digit (n mod 16)) EmptyString)
  else String c EmptyString.

Fixpoint quote_body (s : string) : string :=
  match s with
  | EmptyString => EmptyString
  | String c r => quote_char c ++ quote_body r
  end.

Definition dquote : string := String (ascii_of_nat 34) EmptyString.

Definition quoteJSONString (s : string) : string :=
  dquote ++ quote_body s ++ dquote.

(** *** Values and objects *)

Inductive value : Type :=
| VNum (n : number)
| VStr (s : string).

(** A plain object with string keys, in insertion order. *)
Definition object : Type := list (string * value).

Fixpoint get (k : string) (o : object) : option value :=
  match o with
  | [] => None
  | (k', v) :: r => if String.eqb k k' then Some v else get k r
  end.

(** [o[k] = v]: an existing key keeps its place, a new one goes last. *)
Fixpoint set (k : string) (v : value) (o : object) : object :=
  match o with
  | [] => [(k, v)]
  | (k', v') :: r =>
      if String.eqb k k' then (k, v) :: r else (k', v') :: set k v r
  end.

(** ToBoolean of a property read: undefined, the empty string, NaN and
    0 are falsy. *)
Definition truthy (v : option value) : bool :=
  match v with
  | None => false
  | Some (VNum n) => number_truthy n
  | Some (VStr s) => nonempty s
  end.

Definition stringify_value (v : value) : string :=
  match v with
  | VNum (Finite neg m e) => toString_finite neg m e
  | VNum _ => "null"
  | VStr s => quoteJSONString s
  end.

Fixpoint join (sep : string) (l : list string) : string :=
  match l with
  | [] => EmptyString
  | [x] => x
  | x :: r => x ++ sep ++ join sep r
  end.

(** [JSON.stringify(o)] for an object of numbers and strings. *)
Definition JSON_stringify (o : object) : string :=
  "{" ++ join "," (map (fun kv => quoteJSONString (fst kv) ++ ":"
                                  ++ stringify_value (snd kv)) o) ++ "}".

End JS.


(** ** Web platform containers *)

Module URLSearchParams.

Definition t : Type := list (string * string).

Definition empty : t := [].

Fixpoint get (name : string) (p : t) : option string :=
  match p with
  | [] => None
  | (n, v) :: r => if String.eqb name n then Some v else get name r
  end.

Definition has (name : string) (p : t) : bool :=
  match get name p with Some _ => true | None => false end.

(** [p.set(name, value)]: the first entry of that name takes the value
    and the later ones go; without one, the entry is appended. *)
Definition set (name value : string) (p : t) : t :=
  if has name p then
    (fix go (seen : bool) (q : t) : t :=
       match q with
       | [] => []
       | (n, v) :: r =>
           if String.eqb name n
           then (if seen then go true r else (n, value) :: go true r)
           else (n, v) :: go seen r
       end) false p
  else (p ++ [(name, value)])%list.

End URLSearchParams.

Module Headers.

(** Names are kept in lower case; [set] leaves one entry per name. *)
Definition t : Type := list (string * string).

Definition empty : t := [].

Fixpoint lookup (name : string) (h : t) : option string :=
  match h with
  | [] => None
  | (n, v) :: r => if String.eqb name n then Some v else lookup name r
  end.

Definition get (name : string) (h : t) : option string :=
  lookup (JS.toLowerCase name) h.

Definition remove (name : string) (h : t) : t :=
  filter (fun nv => negb (String.eqb name (fst nv))) h.

Definition set (name value : string) (h : t) : t :=
  let n := JS.toLowerCase name in
  (remove n h ++ [(n, value)])%list.

End Headers.

(** ** The worker *)

Module ImageWorker.

Import JS.

(** *** [ImageTransformOptions]

    The interface has only optional fields; an options object is a plain
    object whose keys are among the twelve field names. *)
Definition ImageTransformOptions : Type := object.

Definition width (o : ImageTransformOptions) := get "width" o.
Definition height (o : ImageTransformOptions) := get "height" o.
Definition quality (o : ImageTransformOptions) := get "quality" o.
Definition format (o : ImageTransformOptions) := get "format" o.
Definition fit (o : ImageTransformOptions) := get "fit" o.
Definition gravity (o : ImageTransformOptions) := get "gravity" o.
Definition background (o : ImageTransformOptions) := get "background" o.
Definition blur (o : ImageTransformOptions) := get "blur" o.
Definition brightness (o : ImageTransformOptions) := get "brightness" o.
Definition contrast (o : ImageTransformOptions) := get "contrast" o.
Definition gamma (o : ImageTransformOptions) := get "gamma" o.
Definition sharpen (o : ImageTransformOptions) := get "sharpen" o.

Definition key_is (key : string) (names : list string) : bool :=
  existsb (String.eqb key) names.

(** The [switch (key)] of the parser: the assignment a recognised key
    makes, [None] for a key with no [case]. *)
Definition assignment (key value : string) : option (string * JS.value) :=
  if key_is key ["width"; "w"] then Some ("width", VNum (parseInt value))
  else if key_is key ["height"; "h"] then Some ("height", VNum (parseInt value))
  else if key_is key ["quality"; "q"] then Some ("quality", VNum (parseInt value))
  else if key_is key ["format"; "f"] then Some ("format", VStr value)
  else if key_is key ["fit"] then Some ("fit", VStr value)
  else if key_is key ["gravity"; "g"] then Some ("gravity", VStr value)
  else if key_is key ["background"; "bg"] then Some ("background", VStr value)
  else if key_is key ["blur"] then Some ("blur", VNum (parseInt value))
  else if key_is key ["brightness"] then Some ("brightness", VNum (parseFloat value))
  else if key_is key ["contrast"] then Some ("contrast", VNum (parseFloat value))
  else if key_is key ["gamma"] then Some ("gamma", VNum (parseFloat value))
  else if key_is key ["sharpen"] then Some ("sharpen", VNum (parseFloat value))
  else None.

(** [const [key, value] = pair.split('=')], with [None] for undefined. *)
Definition key_value (pair : string) : string * option string :=
  match split "=" pair with
  | key :: value :: _ => (key, Some value)
  | key :: [] => (key, None)
  | [] => (EmptyString, None)
  end.

(** The body of [transformPairs.forEach]. *)
Definition applyPair (options : ImageTransformOptions) (pair : string)
  : ImageTransformOptions :=
  match key_value pair with
  | (key, Some value) =>
      if nonempty key && nonempty value then
        match assignment key value with
        | Some (field, v) => set field v options
        | None => options
        end
      else options
  | (_, None) => options
  end.

(** [if (searchParams.has(name)) options[name] = conv(searchParams.get(name))]. *)
Definition queryOverride (searchParams : URLSearchParams.t) (name : string)
    (conv : string -> JS.value) (options : ImageTransformOptions)
  : ImageTransformOptions :=
  match URLSearchParams.get name searchParams with
  | Some v => set name (conv v) options
  | None => options
  end.

(** [if (!options[name]) options[name] = v]. *)
Definition setDefault (name : string) (v : JS.value)
    (options : ImageTransformOptions) : ImageTransformOptions :=
  if truthy (get name options) then options else set name v options.

Definition transformPairs (transformString : string) : list string :=
  filter nonempty (split "," transformString).

Definition parseTransformOptions (searchParams : URLSearchParams.t)
  : ImageTransformOptions :=
  let options : ImageTransformOptions := [] in
  let transformString :=
    match URLSearchParams.get "transform" searchParams with
    | Some s => s
    | None => EmptyString
    end in
  let options := fold_left applyPair (transformPairs transformString) options in
  let options := queryOverride searchParams "width" (fun v => VNum (parseInt v)) options in
  let options := queryOverride searchParams "height" (fun v => VNum (parseInt v)) options in
  let options := queryOverride searchParams "quality" (fun v => VNum (parseInt v)) options in
  let options := queryOverride searchParams "format" VStr options in
  let options := setDefault "quality" (VNum (of_Z 85)) options in
  let options := setDefault "format" (VStr "auto") options in
  let options := setDefault "fit" (VStr "scale-down") options in
  options.

(** *** [getResponsiveWidth] *)

Definition isMobile (userAgent : string) : bool :=
  test_alt_i ["Mobile"; "Android"; "iPhone"; "iPad"] userAgent.

Definition isTablet (userAgent : string) : bool :=
  test_alt_i ["iPad"; "Tablet"] userAgent.

Definition getResponsiveWidth (userAgent : string)
    (requestedWidth : option number) : number :=
  match requestedWidth with
  | Some w =>
      if number_truthy w then w
      else if isMobile userAgent && negb (isTablet userAgent) then of_Z 320
      else if isTablet userAgent then of_Z 768
      else of_Z 1200
  | None =>
      if isMobile userAgent && negb (isTablet userAgent) then of_Z 320
      else if isTablet userAgent then of_Z 768
      else of_Z 1200
  end.

(** *** External collaborators *)

Record R2Object : Type := {
  r2_body : string;
  r2_httpMetadata : list (string * string)
}.

(** [obj.writeHttpMetadata(headers)]. *)
Definition writeHttpMetadata (o : R2Object) (h : Headers.t) : Headers.t :=
  fold_left (fun acc nv => Headers.set (fst nv) (snd nv) acc)
            (r2_httpMetadata o) h.

Record Response : Type := {
  status : Z;
  headers : Headers.t;
  body : string
}.

(** [c.text(text, status)]; the content type the framework adds is left
    out. *)
Definition c_text (text : string) (st : Z) : Response :=
  {| status := st; headers := Headers.empty; body := text |}.

(** One call on the image being built. *)
Inductive op : Type :=
| Transform (resizeOptions : object)
| Blur (v : JS.value)
| Brightness (v : JS.value)
| Contrast (v : JS.value)
| Gamma (v : JS.value)
| Sharpen (v : JS.value).

(** The handle [transformedImage]: the bytes given to [input] and the
    calls made on it since, oldest first. *)
Record Image : Type := {
  source : string;
  applied : list op
}.

(** A call that leaves the worker.  The key of a fetch is what the
    handler passes: a string, or [None] for [undefined]. *)
Inductive call : Type :=
| R2Get (key : option string)
| ImagesInput (bytes : string)
| ImagesOp (o : op)
| ImagesOutput (outputOptions : object).

Inductive outcome (A : Type) : Type :=
| Ok (a : A)
| Throw (err : string).
Arguments Ok {A} a.
Arguments Throw {A} err.

(** What the bucket and the image binding answer.  The bucket sees the
    calls made before, so a second [get] of a key may answer differently
    from the first. *)
Record Env : Type := {
  R2_IMAGES_get : list call -> option string -> outcome (option R2Object);
  IMAGES_input : string -> outcome unit;
  IMAGES_op : Image -> op -> outcome unit;
  IMAGES_output : Image -> object -> outcome Response
}.

(** *** Exceptions over a log of calls *)

Definition M (A : Type) : Type := list call -> outcome A * list call.

Definition ret {A} (a : A) : M A := fun log => (Ok a, log).

Definition bind {A B} (m : M A) (k : A -> M B) : M B :=
  fun log =>
    match m log with
    | (Ok a, log') => k a log'
    | (Throw e, log') => (Throw e, log')
    end.

Definition try_catch {A} (m : M A) (handler : string -> M A) : M A :=
  fun log =>
    match m log with
    | (Ok a, log') => (Ok a, log')
    | (Throw e, log') => handler e log'
    end.

(** A call: log it, then answer as the environment does. *)
Definition external {A} (c : call) (answer : list call -> outcome A) : M A :=
  fun log => (answer log, (log ++ [c])%list).

Declare Scope worker_scope.
Delimit Scope worker_scope with worker.
Notation "x <- m ;; k" := (bind m (fun x => k))
  (at level 61, m at next level, right associativity) : worker_scope.
Local Open Scope worker_scope.

(** *** The request *)

(** A request the router has matched with the pattern of a route: what
    the named parameter [:options] matched (on the image route), what
    the wildcard matched, the query string and the headers. *)
Record Request : Type := {
  param_options : string;
  wildcard : string;
  query : URLSearchParams.t;
  req_headers : Headers.t
}.

(** The parameters the router binds on [/cdn-cgi/image/:options/*] and
    on [/info/*]: one for each name of the pattern.  The wildcard is no
    name: the part of the path it matched is bound to nothing. *)
Definition imageRoute (req : Request) : list (string * string) :=
  [("options", param_options req)].

Definition infoRoute (req : Request) : list (string * string) := [].

(** [c.req.param(name)], [None] for [undefined]. *)
Fixpoint param (bound : list (string * string)) (name : string)
  : option string :=
  match bound with
  | [] => None
  | (n, v) :: r => if String.eqb name n then Some v else param r name
  end.

(** [x || ''] on an optional string. *)
Definition or_empty (x : option string) : string :=
  match x with
  | Some s => s
  | None => EmptyString
  end.

Definition header (name : string) (req : Request) : string :=
  match Headers.get name (req_headers req) with
  | Some v => v
  | None => EmptyString
  end.

Section Handler.

Variable env : Env.

Definition get_object (key : option string) : M (option R2Object) :=
  external (R2Get key) (fun log => R2_IMAGES_get env log key).

Definition images_input (bytes : string) : M Image :=
  _ <- external (ImagesInput bytes) (fun _ => IMAGES_input env bytes) ;;
  ret {| source := bytes; applied := [] |}.

Definition images_op (img : Image) (o : op) : M Image :=
  _ <- external (ImagesOp o) (fun _ => IMAGES_op env img o) ;;
  ret {| source := source img; applied := (applied img ++ [o])%list |}.

Definition images_output (img : Image) (outputOptions : object) : M Response :=
  external (ImagesOutput outputOptions) (fun _ => IMAGES_output env img outputOptions).

(** [if (cond) transformedImage = transformedImage.f(...)]. *)
Definition when_op (cond : bool) (o : op) (img : Image) : M Image :=
  if cond then images_op img o else ret img.

(** [if (field) transformedImage = transformedImage.f(field)]. *)
Definition when_truthy (field : option JS.value) (f : JS.value -> op)
    (img : Image) : M Image :=
  match field with
  | Some v => when_op (truthy (Some v)) (f v) img
  | None => ret img
  end.

(** [if (field !== undefined) transformedImage = transformedImage.f(field)]. *)
Definition when_defined (field : option JS.value) (f : JS.value -> op)
    (img : Image) : M Image :=
  match field with
  | Some v => images_op img (f v)
  | None => ret img
  end.

Definition copy_if_truthy (name : string) (src dst : object) : object :=
  match get name src with
  | Some v => if truthy (Some v) then set name v dst else dst
  | None => dst
  end.

Definition resizeOptions (transformOptions : ImageTransformOptions) : object :=
  copy_if_truthy "fit" transformOptions
    (copy_if_truthy "height" transformOptions
       (copy_if_truthy "width" transformOptions [])).

(** Template-literal conversion of a field to a string. *)
Definition to_template (v : JS.value) : string :=
  match v with
  | VStr s => s
  | VNum NaN => "NaN"
  | VNum (Infinity neg) => if neg then "-Infinity" else "Infinity"
  | VNum (Finite neg m e) => toString_finite neg m e
  end.

Definition is_auto (v : option JS.value) : bool :=
  match v with
  | Some (VStr s) => String.eqb s "auto"
  | _ => false
  end.

(** [outputOptions] after the format negotiation. *)
Definition outputOptions (transformOptions : ImageTransformOptions)
    (acceptHeader : string) : object :=
  let out : object :=
    match quality transformOptions with
    | Some q => [("quality", q)]
    | None => []
    end in
  if is_auto (format transformOptions) then
    if includes "image/avif" acceptHeader then set "format" (VStr "image/avif") out
    else if includes "image/webp" acceptHeader then set "format" (VStr "image/webp") out
    else set "format" (VStr "image/jpeg") out
  else
    match format transformOptions with
    | Some f =>
        if truthy (Some f) then set "format" (VStr ("image/" ++ to_template f)) out
        else out
    | None => out
    end.

(** The directive the handler works with: the parsed path options,
    with the width replaced when the path asks for [width=auto]. *)
Definition resolveOptions (req : Request) : ImageTransformOptions :=
  let options := or_empty (param (imageRoute req) "options") in
  let searchParams := URLSearchParams.set "transform" options URLSearchParams.empty in
  let transformOptions := parseTransformOptions searchParams in
  if includes "width=auto" options then
    let userAgent := header "User-Agent" req in
    set "width" (VNum (getResponsiveWidth userAgent None)) transformOptions
  else transformOptions.

Definition optimizedHeaders (transformOptions : ImageTransformOptions)
    (response : Response) : Headers.t :=
  Headers.set "Vary" "Accept, User-Agent"
    (Headers.set "X-Transform-Options" (JSON_stringify transformOptions)
       (Headers.set "X-Image-Optimized" "true"
          (Headers.set "Cache-Control" "public, max-age=86400, s-maxage=31536000"
             (headers response)))).

(** The transformations, from [IMAGES.input] to the last filter. *)
Definition applyTransformations (transformOptions : ImageTransformOptions)
    (bytes : string) : M Image :=
  transformedImage <- images_input bytes ;;
  transformedImage <-
    when_op (truthy (width transformOptions) || truthy (height transformOptions))
            (Transform (resizeOptions transformOptions)) transformedImage ;;
  transformedImage <- when_truthy (blur transformOptions) Blur transformedImage ;;
  transformedImage <- when_defined (brightness transformOptions) Brightness transformedImage ;;
  transformedImage <- when_defined (contrast transformOptions) Contrast transformedImage ;;
  transformedImage <- when_defined (gamma transformOptions) Gamma transformedImage ;;
  when_defined (sharpen transformOptions) Sharpen transformedImage.

(** The body of the outer [try] after its first test, for an image
    path. *)
Definition optimize (req : Request) (imagePath : string) : M Response :=
  let transformOptions := resolveOptions req in
  originalImage <- get_object (Some imagePath) ;;
  match originalImage with
  | None => ret (c_text "Image not found" 404)
  | Some originalImage =>
      transformedImage <- applyTransformations transformOptions (r2_body originalImage) ;;
      response <- images_output transformedImage
                    (outputOptions transformOptions (header "Accept" req)) ;;
      ret {| status := status response;
             headers := optimizedHeaders transformOptions response;
             body := body response |}
  end.

(** The body of the outer [try]: [if (!imagePath)] sends away the
    undefined path and the empty one. *)
Definition tryOptimize (req : Request) : M Response :=
  match param (imageRoute req) "*" with
  | None => ret (c_text "Image path required" 400)
  | Some imagePath =>
      if negb (nonempty imagePath) then ret (c_text "Image path required" 400)
      else optimize req imagePath
  end.

Definition fallbackHeaders (originalImage : R2Object) : Headers.t :=
  Headers.set "X-Fallback" "original-r2"
    (Headers.set "Cache-Control" "public, max-age=3600"
       (writeHttpMetadata originalImage Headers.empty)).

(** The inner [try] of the [catch] block: [Some] when it returns a
    response, [None] when control falls out of it. *)
Definition tryFallback (req : Request) : M (option Response) :=
  try_catch
    (let imagePath := param (imageRoute req) "*" in
     originalImage <- get_object imagePath ;;
     match originalImage with
     | Some originalImage =>
         ret (Some {| status := 200;
                      headers := fallbackHeaders originalImage;
                      body := r2_body originalImage |})
     | None => ret None
     end)
    (fun fallbackError => ret None).

(** [imageApp.get('/cdn-cgi/image/:options/*', ...)]. *)
Definition handler (req : Request) : M Response :=
  try_catch (tryOptimize req)
    (fun error =>
       served <- tryFallback req ;;
       match served with
       | Some response => ret response
       | None => ret (c_text "Image processing failed" 500)
       end).

(** Handling one request, from an empty log. *)
Definition serve (req : Request) : outcome Response * list call :=
  handler req [].

End Handler.

End ImageWorker.


(** ** Vocabulary of the statements *)

Module Spec.

Import JS ImageWorker.

(** The directive of a path option string alone, built as the handler
    builds it. *)
Definition parsePath (options : string) : ImageTransformOptions :=
  parseTransformOptions
    (URLSearchParams.set "transform" options URLSearchParams.empty).

(** The field a pair assigns: [None] for a pair without [=], with an empty
    key or value, or with a key the parser does not know. *)
Definition target (pair : string) : option string :=
  match key_value pair with
  | (key, Some value) =>
      if nonempty key && nonempty value then
        match assignment key value with
        | Some (field, _) => Some field
        | None => None
        end
      else None
  | (_, None) => None
  end.

Definition effective (pair : string) : bool :=
  match target pair with Some _ => true | None => false end.

Definition assigns (field pair : string) : bool :=
  match target pair with
  | Some f => String.eqb f field
  | None => false
  end.

(** Some pair of the option string assigns the field. *)
Definition mentions (field options : string) : bool :=
  existsb (assigns field) (transformPairs options).

(** The three defaults, in the order the parser applies them. *)
Definition applyDefaults (o : ImageTransformOptions) : ImageTransformOptions :=
  setDefault "fit" (VStr "scale-down")
    (setDefault "format" (VStr "auto")
       (setDefault "quality" (VNum (of_Z 85)) o)).

(** The width the device classes stand for. *)
Definition deviceWidth (userAgent : string) : number :=
  if isMobile userAgent && negb (isTablet userAgent) then of_Z 320
  else if isTablet userAgent then of_Z 768
  else of_Z 1200.

(** The transform string the parser reads from its argument. *)
Definition transformOf (searchParams : URLSearchParams.t) : string :=
  match URLSearchParams.get "transform" searchParams with
  | Some s => s
  | None => EmptyString
  end.

(** The quality is an integer of the range [1,100]. *)
Definition quality_in_range (o : ImageTransformOptions) : Prop :=
  exists q, quality o = Some (VNum (of_Z q)) /\ 1 <= q <= 100.

(** Whatever the parser stores under [quality] was read by [parseInt]. *)
Definition quality_read (o : ImageTransformOptions) : Prop :=
  forall v, get "quality" o = Some v -> exists s, v = VNum (parseInt s).

(** The same request with another query string. *)
Definition with_query (req : Request) (q : URLSearchParams.t) : Request :=
  {| param_options := param_options req;
     wildcard := wildcard req;
     query := q;
     req_headers := req_headers req |}.

End Spec.

(** ** Sample buckets, bindings and requests *)

Module Scenario.

Import JS ImageWorker.

Definition photo : R2Object :=
  {| r2_body := "RAW-JPEG-BYTES";
     r2_httpMetadata := [("Content-Type", "image/jpeg")] |}.

Definition encoded (outputOptions : object) : Response :=
  {| status := 200;
     headers := Headers.set "Content-Type"
                  (match get "format" outputOptions with
                   | Some (VStr f) => f
                   | _ => "image/jpeg"
                   end) Headers.empty;
     body := "ENCODED-BYTES" |}.

(** A bucket that holds [photo] under every key, and a binding that never
    fails. *)
Definition healthy : Env :=
  {| R2_IMAGES_get := fun _ _ => Ok (Some photo);
     IMAGES_input := fun _ => Ok tt;
     IMAGES_op := fun _ _ => Ok tt;
     IMAGES_output := fun _ o => Ok (encoded o) |}.

(** The same bucket, with a binding whose encode step throws. *)
Definition encode_fails : Env :=
  {| R2_IMAGES_get := fun _ _ => Ok (Some photo);
     IMAGES_input := fun _ => Ok tt;
     IMAGES_op := fun _ _ => Ok tt;
     IMAGES_output := fun _ _ => Throw "encode failed" |}.

(** An empty bucket. *)
Definition empty_bucket : Env :=
  {| R2_IMAGES_get := fun _ _ => Ok None;
     IMAGES_input := fun _ => Ok tt;
     IMAGES_op := fun _ _ => Ok tt;
     IMAGES_output := fun _ o => Ok (encoded o) |}.

(** The request for [/cdn-cgi/image/<options>/paintings/harbour.jpg]. *)
Definition request (options userAgent accept : string) : Request :=
  {| param_options := options;
     wildcard := "paintings/harbour.jpg";
     query := [];
     req_headers := Headers.set "Accept" accept
                      (Headers.set "User-Agent" userAgent Headers.empty) |}.

Definition iPhone : string :=
  "Mozilla/5.0 (iPhone; CPU iPhone OS 17_0 like Mac OS X) Mobile/15E148".
Definition iPad : string :=
  "Mozilla/5.0 (iPad; CPU OS 17_0 like Mac OS X) Mobile/15E148".
Definition desktop : string :=
  "Mozilla/5.0 (X11; Linux x86_64) Gecko/20100101 Firefox/126.0".

End Scenario.

(** ** Further vocabulary: characters, calls *)

Module More.

Import JS ImageWorker Spec.

(** The character occurs in the string. *)
Fixpoint has_char (c : ascii) (s : string) : bool :=
  match s with
  | EmptyString => false
  | String a r => Ascii.eqb a c || has_char c r
  end.

End More.

(** ** The site's image URLs (the data module and the image component) *)

Module Site.

Import JS ImageWorker.

(** The literal type of the [fit] option. *)
Inductive Fit : Type := ScaleDown | Contain | Cover | Crop | Pad.

Definition fitName (f : Fit) : string :=
  match f with
  | ScaleDown => "scale-down"
  | Contain => "contain"
  | Cover => "cover"
  | Crop => "crop"
  | Pad => "pad"
  end.

(** A number inside a template literal. *)
Definition text (n : number) : string := to_template (VNum n).

(** The [options] argument of [getImageUrl]. *)
Record UrlOptions : Type := {
  opt_width : option number;
  opt_height : option number;
  opt_quality : option number;
  opt_fit : option Fit
}.

Definition baseUrl : string := "https://image.janeperryartist.co.nz".

(** [if (x) params.push(`name=${x}`)]. *)
Definition push_number (name : string) (x : option number)
    (params : list string) : list string :=
  match x with
  | Some n => if number_truthy n then (params ++ [(name ++ "=" ++ text n)%string])%list
              else params
  | None => params
  end.

Definition push_fit (x : option Fit) (params : list string) : list string :=
  match x with
  | Some f => (params ++ [("fit=" ++ fitName f)%string])%list
  | None => params
  end.

(** The [params] array of [getImageUrl], as it stands before the join. *)
Definition urlParams (options : UrlOptions) : list string :=
  let params := ["format=auto"; "onerror=redirect"] in
  let params := push_number "width" (opt_width options) params in
  let params := push_number "height" (opt_height options) params in
  let params := push_number "quality" (opt_quality options) params in
  push_fit (opt_fit options) params.

Definition getImageUrl (fileName : string) (options : option UrlOptions)
  : string :=
  match options with
  | None => baseUrl ++ "/cdn-cgi/image/format=auto,quality=85/" ++ fileName
  | Some options =>
      baseUrl ++ "/cdn-cgi/image/" ++ join "," (urlParams options)
      ++ "/" ++ fileName
  end.

(** The [options] argument of [getResponsiveImageUrls]. *)
Record ResponsiveOptions : Type := {
  ropt_quality : option number;
  ropt_fit : option Fit
}.

Record ResponsiveUrls : Type := {
  src : string;
  srcset : string;
  sizes : string
}.

Definition widths : list number :=
  [of_Z 320; of_Z 640; of_Z 960; of_Z 1280; of_Z 2560].

(** [options?.quality || 85]. *)
Definition defaultQuality (options : option ResponsiveOptions) : number :=
  match options with
  | Some o => match ropt_quality o with
              | Some q => if number_truthy q then q else of_Z 85
              | None => of_Z 85
              end
  | None => of_Z 85
  end.

(** [options?.fit || "scale-down"]. *)
Definition chosenFit (options : option ResponsiveOptions) : string :=
  match options with
  | Some o => match ropt_fit o with
              | Some f => fitName f
              | None => "scale-down"
              end
  | None => "scale-down"
  end.

(** The option string of one width. *)
Definition responsiveParams (options : option ResponsiveOptions)
    (width : number) : string :=
  "format=auto,quality=" ++ text (defaultQuality options)
  ++ ",fit=" ++ chosenFit options ++ ",width=" ++ text width.

Definition getResponsiveImageUrls (fileName : string)
    (options : option ResponsiveOptions) : ResponsiveUrls :=
  let srcsetUrls :=
    join ", "
      (map (fun width =>
              baseUrl ++ "/cdn-cgi/image/" ++ responsiveParams options width
              ++ "/" ++ fileName ++ " " ++ text width ++ "w")
           widths) in
  let defaultSrc :=
    baseUrl ++ "/cdn-cgi/image/" ++ responsiveParams options (of_Z 960)
    ++ "/" ++ fileName in
  {| src := defaultSrc;
     srcset := srcsetUrls;
     sizes := "(max-width: 640px) 100vw, (max-width: 1280px) 50vw, 33vw" |}.

(** *** The [ResponsiveImage] component, as the attributes it computes *)

Inductive Variant : Type := Thumbnail | Detail.

Definition BREAKPOINTS : list number :=
  [of_Z 480; of_Z 640; of_Z 828; of_Z 1080; of_Z 1200; of_Z 1920].

Record ImgAttributes : Type := {
  img_src : string;
  img_srcSet : string;
  img_sizes : string;
  img_alt : string;
  img_className : string;
  img_loading : string;
  img_decoding : string;
  data_variant : string;
  data_default_src_width : number;
  data_breakpoints : string
}.

Definition variantOptions (variant : Variant) (width : number) : UrlOptions :=
  let isDetail := match variant with Detail => true | Thumbnail => false end in
  {| opt_width := Some width;
     opt_height := None;
     opt_quality := Some (if isDetail then of_Z 75 else of_Z 65);
     opt_fit := Some (if isDetail then Contain else Cover) |}.

Definition ResponsiveImage (fileName alt className : string)
    (variant : Variant) : ImgAttributes :=
  let isDetail := match variant with Detail => true | Thumbnail => false end in
  let loading := if isDetail then "eager" else "lazy" in
  let sizes :=
    if isDetail then "(max-width: 768px) 100vw, 66vw"
    else "(max-width: 768px) 100vw, (max-width: 1200px) 400px, 360px" in
  let srcSet :=
    join ", "
      (map (fun width =>
              getImageUrl fileName (Some (variantOptions variant width))
              ++ " " ++ text width ++ "w")
           BREAKPOINTS) in
  let defaultWidth := if isDetail then of_Z 1200 else of_Z 640 in
  {| img_src := getImageUrl fileName (Some (variantOptions variant defaultWidth));
     img_srcSet := srcSet;
     img_sizes := sizes;
     img_alt := alt;
     img_className := className;
     img_loading := loading;
     img_decoding := "async";
     data_variant := match variant with
                     | Detail => "detail"
                     | Thumbnail => "thumbnail"
                     end;
     data_default_src_width := defaultWidth;
     data_breakpoints := join "," (map text BREAKPOINTS) |}.

(** The directive of the options [getImageUrl] writes, before the
    defaults. *)
Definition written (options : UrlOptions) : ImageTransformOptions :=
  let o := [("format", VStr "auto")] in
  let o := match opt_width options with
           | Some n => set "width" (VNum n) o | None => o end in
  let o := match opt_height options with
           | Some n => set "height" (VNum n) o | None => o end in
  let o := match opt_quality options with
           | Some n => set "quality" (VNum n) o | None => o end in
  match opt_fit options with
  | Some f => set "fit" (VStr (fitName f)) o
  | None => o
  end.

(** A positive integer that a binary64 number holds exactly, or no
    number at all. *)
Definition safe_positive (x : option number) : bool :=
  match x with
  | None => true
  | Some (Finite false m 0) => ((0 <? m) && (m <? 2 ^ 53))%N
  | Some _ => false
  end.

End Site.

(** ** The [/info/*] endpoint of the image worker *)

Module Info.

Import JS ImageWorker.
Local Open Scope worker_scope.






Section InfoHandler.

Variable env : Env.





End InfoHandler.

End Info.

(** ** The pages of the site (the data module and the routes of the app) *)

Module Pages.

Import JS ImageWorker Site.

(** [a === b] on numbers, as values: NaN equals nothing, the two zeros
    are equal, and two decimal writings of one value are equal. *)
Definition strict_equal (a b : number) : bool :=
  match a, b with
  | Infinity n1, Infinity n2 => Bool.eqb n1 n2
  | Finite n1 m1 e1, Finite n2 m2 e2 =>
      if (m1 =? 0)%N then (m2 =? 0)%N
      else
        let e := Z.min e1 e2 in
        Bool.eqb n1 n2
        && (m1 * 10 ^ Z.to_N (e1 - e) =? m2 * 10 ^ Z.to_N (e2 - e))%N
  | _, _ => false
  end.

Record ArtworkImage : Type := {
  file_name : string;
  alt : string;
  image_width : number;
  image_height : number
}.

Record Artwork : Type := {
  art_id : number;
  art_title : string;
  year : option number;
  medium : string;
  dimensions : string;
  framedDimensions : option string;
  framed : bool;
  price : option number;
  image : option ArtworkImage;
  display : bool;
  private : bool
}.

Record PageData : Type := {
  slug : string;
  period : option string;
  title : string;
  artworks : list Artwork
}.

Record PageDataFile : Type := {
  file_slug : string;
  file_period : string;
  file_title : string;
  file_artworks : list number
}.

Definition getValidSlugs : list string := ["paintings"; "drawings"].

Definition getValidPeriods : list string := ["current"; "early"].

Definition isValidSlugPeriod (slug period : string) : bool :=
  existsb (String.eqb slug) getValidSlugs
  && existsb (String.eqb period) getValidPeriods.

(** What [ArtworkListItem] renders: the link, the thumbnail when the
    artwork has an image, and the title under it. *)
Record ListItem : Type := {
  href : string;
  thumbnail : option ImgAttributes;
  caption : string
}.

Definition ArtworkListItem (artwork : Artwork) (page : PageData) : ListItem :=
  let href :=
    "/" ++ slug page ++ "/"
    ++ match period page with Some p => p | None => "undefined" end
    ++ "/" ++ text (art_id artwork) in
  {| href := href;
     thumbnail :=
       match image artwork with
       | Some img =>
           Some (ResponsiveImage (file_name img)
                   (if nonempty (alt img) then alt img else art_title artwork)
                   "w-full mx-auto" Thumbnail)
       | None => None
       end;
     caption := art_title artwork |}.

(** The pattern [[0-9]+] of the artwork route, on the whole path
    segment. *)
Definition is_digit (c : ascii) : bool :=
  let n := nat_of_ascii c in ((48 <=? n) && (n <=? 57))%nat.

Fixpoint digits_only (s : string) : bool :=
  match s with
  | EmptyString => true
  | String c r => is_digit c && digits_only r
  end.

Definition matches_id (segment : string) : bool :=
  nonempty segment && digits_only segment.

(** The patterns [(drawings|paintings)] and [(current|early)]. *)
Definition matches_slug (segment : string) : bool :=
  String.eqb segment "drawings" || String.eqb segment "paintings".

Definition matches_period (segment : string) : bool :=
  String.eqb segment "current" || String.eqb segment "early".

(** What a route handler returns. *)
Inductive View : Type :=
| NotFound
| ArtworkList (page : PageData)
| ArtworkDetail (artwork : Artwork) (page : PageData)
                (allOtherArtworks : list Artwork).

Section Data.

(** The imported JSON files.  [artworksData key] is the property access
    [artworksData[key]], [None] for [undefined]. *)
Variables paintingsCurrentData paintingsEarlyData
          drawingsCurrentData drawingsEarlyData : PageDataFile.
Variable artworksData : string -> option Artwork.

(** [pageDataMap[key]].  The keys asked for hold a hyphen, so no
    property of the prototype answers. *)
Definition pageDataMap (key : string) : option PageDataFile :=
  if String.eqb key "paintings-current" then Some paintingsCurrentData
  else if String.eqb key "paintings-early" then Some paintingsEarlyData
  else if String.eqb key "drawings-current" then Some drawingsCurrentData
  else if String.eqb key "drawings-early" then Some drawingsEarlyData
  else None.

Definition defined {A} (x : option A) : bool :=
  match x with Some _ => true | None => false end.

Definition loadPageData (slug period : string) : option PageData :=
  let key := slug ++ "-" ++ period in
  match pageDataMap key with
  | None => None
  | Some data =>
      let artworks :=
        flat_map (fun artwork => match artwork with
                                 | Some a => [a]
                                 | None => []
                                 end)
          (filter defined
             (map (fun artworkId => artworksData (text artworkId))
                  (file_artworks data))) in
      Some {| slug := file_slug data;
              period := Some (file_period data);
              title := file_title data;
              artworks := artworks |}
  end.

Definition loadArtwork (id : string) : option Artwork := artworksData id.

(** [app.get('/', ...)]. *)
Definition home : View :=
  match loadPageData "paintings" "current" with
  | None => NotFound
  | Some page => ArtworkList page
  end.

(** The handler of the collection pages, on its two parameters. *)
Definition collectionPage (slug period : string) : View :=
  if negb (isValidSlugPeriod slug period) then NotFound
  else
    match loadPageData slug period with
    | None => NotFound
    | Some page => ArtworkList page
    end.

(** The handler of the artwork pages, on its three parameters. *)
Definition artworkHandler (slug period artworkId : string) : View :=
  if negb (isValidSlugPeriod slug period) then NotFound
  else
    match loadPageData slug period with
    | None => NotFound
    | Some page =>
        match loadArtwork artworkId with
        | None => NotFound
        | Some artwork =>
            match find (fun a => strict_equal (art_id a) (art_id artwork))
                       (artworks page) with
            | None => NotFound
            | Some artworkInPage =>
                let allOtherArtworks :=
                  filter (fun a => negb (strict_equal (art_id a) (art_id artwork)))
                         (artworks page) in
                ArtworkDetail artwork page allOtherArtworks
            end
        end
    end.

(** The address [/slug/period/artworkId]: the artwork route when its
    three patterns match the three segments; no other route has three
    segments, so the [notFound] handler of the app answers the rest. *)
Definition artworkPage (slug period artworkId : string) : View :=
  if matches_slug slug && matches_period period && matches_id artworkId
  then artworkHandler slug period artworkId
  else NotFound.

End Data.

(** *** Sample data *)

Definition artworkOf (n : Z) (name : string) : Artwork :=
  {| art_id := of_Z n; art_title := name; year := Some (of_Z 2019);
     medium := "Oil on canvas"; dimensions := "400x500";
     framedDimensions := None; framed := false; price := None;
     image := None; display := true; private := false |}.

(** An artworks file with the ids 7 and 9. *)
Definition twoArtworks (key : string) : option Artwork :=
  if String.eqb key "7" then Some (artworkOf 7 "Harbour")
  else if String.eqb key "9" then Some (artworkOf 9 "Estuary")
  else None.

(** A page file that names the ids 7, 9 and 11. *)
Definition threeIds (slug period : string) : PageDataFile :=
  {| file_slug := slug; file_period := period; file_title := "Paintings";
     file_artworks := [of_Z 7; of_Z 9; of_Z 11] |}.

End Pages.

(** ** The migration scripts *)

Module Migration.

Import JS.

Definition customDomain : string := "images.jane-perry.com".

(** [url.split('/').pop()]: the split of a string is never empty. *)
Definition getFilenameFromUrl (url : string) : string :=
  last (split "/" url) EmptyString.

(** The [optimizedUrl] that [uploadToR2] returns for a file name. *)
Definition optimizedUrl (filename : string) : string :=
  "https://" ++ customDomain ++ "/cdn-cgi/image/format=auto,quality=85/"
  ++ filename.

(** The address [updateDataFiles] writes in the place of a processed
    one. *)
Definition migratedUrl (s3Url : string) : string :=
  optimizedUrl (getFilenameFromUrl s3Url).

End Migration.

Module Validator.

Import JS.

(** [s.endsWith(suffix)]. *)
Fixpoint endsWith (suffix s : string) : bool :=
  String.eqb s suffix
  || match s with
     | EmptyString => false
     | String _ r => endsWith suffix r
     end.

(** [/\.(jpg|jpeg|png|webp|avif|gif)$/i.test(s)]. *)
Definition test_extension (s : string) : bool :=
  existsb (fun e => endsWith ("." ++ e) (toLowerCase s))
          ["jpg"; "jpeg"; "png"; "webp"; "avif"; "gif"].

Definition isImageUrl (str : string) : bool :=
  includes "jane-perry.s3.ap-southeast-2.amazonaws.com" str
  || includes "/cdn-cgi/image/" str
  || includes "images.jane-perry.com" str
  || (String.prefix "http" str && test_extension str).

(** The line terminators among the code units below 256, which the dot
    of a pattern does not match. *)
Definition is_line_terminator (c : ascii) : bool :=
  let n := nat_of_ascii c in ((n =? 10) || (n =? 13))%nat.

(** The longest slash-free prefix, and what follows it. *)
Fixpoint slash_free (s : string) : string * string :=
  match s with
  | EmptyString => (EmptyString, EmptyString)
  | String c r =>
      if Ascii.eqb c "/" then (EmptyString, s)
      else let (o, rest) := slash_free r in (String c o, rest)
  end.

(** What [.*] takes: the longest prefix without a line terminator. *)
Fixpoint dot_star (s : string) : string :=
  match s with
  | EmptyString => EmptyString
  | String c r => if is_line_terminator c then EmptyString
                  else String c (dot_star r)
  end.

(** The rest of [s] after the literal [p], when [s] starts with it. *)
Fixpoint after (p s : string) : option string :=
  match p, s with
  | EmptyString, _ => Some s
  | String a p', String b s' => if Ascii.eqb a b then after p' s' else None
  | String _ _, EmptyString => None
  end.

(** The pattern of [validateCloudflareImageUrl] at the start of [s]: the
    literal [/cdn-cgi/image/], a first group of one or more characters
    other than the slash, a slash, and a second group of characters that
    the dot matches.  The first group is greedy and cannot give a
    character back, as the slash that must follow is none of its
    characters. *)
Definition match_here (s : string) : option (string * string) :=
  match after "/cdn-cgi/image/" s with
  | Some r =>
      match slash_free r with
      | (String c o, String _ tail) => Some (String c o, dot_star tail)
      | _ => None
      end
  | None => None
  end.

(** [s.match(pattern)]: the leftmost match. *)
Fixpoint url_match (s : string) : option (string * string) :=
  match match_here s with
  | Some groups => Some groups
  | None => match s with
            | EmptyString => None
            | String _ r => url_match r
            end
  end.

Definition validateCloudflareImageUrl (url : string) : bool :=
  let structured :=
    if includes "/cdn-cgi/image/" url then
      match url_match url with
      | Some (options, imagePath) =>
          Some ((0 <? String.length options)%nat
                && (0 <? String.length imagePath)%nat)
      | None => None
      end
    else None in
  match structured with
  | Some answer => answer
  | None =>
      if includes "images.jane-perry.com" url
      then includes "/cdn-cgi/image/" url
      else false
  end.

End Validator.

(** ** Objects and the parser *)

Module ParserFacts.

Import JS ImageWorker Spec.

Lemma get_set_same k v o : get k (set k v o) = Some v.
Proof.
  induction o as [|[k' v'] r IH]; simpl.
  - now rewrite String.eqb_refl.
  - destruct (String.eqb k k') eqn:E; simpl.
    + now rewrite String.eqb_refl.
    + now rewrite E.
Qed.

Lemma get_set_other k k' v o : k <> k' -> get k (set k' v o) = get k o.
Proof.
  intros Hne. induction o as [|[k0 v0] r IH]; simpl.
  - apply String.eqb_neq in Hne. now rewrite Hne.
  - destruct (String.eqb k' k0) eqn:E; simpl.
    + apply String.eqb_eq in E. subst k0.
      apply String.eqb_neq in Hne. now rewrite Hne.
    + now rewrite IH.
Qed.

(** [parseInt] returns NaN, an infinity or an integer. *)
Lemma parseInt_shape s :
  parseInt s = NaN
  \/ (exists neg, parseInt s = Infinity neg)
  \/ exists neg m, parseInt s = Finite neg m 0.
Proof.
  unfold parseInt.
  repeat match goal with
         | |- context [let '(_, _) := ?x in _] => destruct x
         end.
  match goal with |- context [match ?n with O => _ | S _ => _ end] => destruct n end.
  - now left.
  - right. destruct (to_binary64 _); eauto.
Qed.

(** What a pair does to the options, by its target. *)
Lemma applyPair_target o p :
  match target p with
  | Some f => exists v, applyPair o p = set f v o
  | None => applyPair o p = o
  end.
Proof.
  unfold target, applyPair.
  destruct (key_value p) as [key [value|]]; [|reflexivity].
  destruct (nonempty key && nonempty value); [|reflexivity].
  destruct (assignment key value) as [[f v]|]; [|reflexivity].
  now exists v.
Qed.

Lemma applyPair_ineffective o p : effective p = false -> applyPair o p = o.
Proof.
  unfold effective. intros H. pose proof (applyPair_target o p) as T.
  destruct (target p); [discriminate | exact T].
Qed.

Lemma applyPair_other f o p :
  assigns f p = false -> get f (applyPair o p) = get f o.
Proof.
  unfold assigns. intros H. pose proof (applyPair_target o p) as T.
  destruct (target p) as [g|].
  - destruct T as [v ->]. apply get_set_other.
    intros ->. now rewrite String.eqb_refl in H.
  - now rewrite T.
Qed.

Lemma fold_applyPair_effective ps : forall o,
  fold_left applyPair ps o = fold_left applyPair (filter effective ps) o.
Proof.
  induction ps as [|p ps IH]; intros o; simpl; [reflexivity|].
  destruct (effective p) eqn:E; simpl.
  - apply IH.
  - rewrite (applyPair_ineffective o p E). apply IH.
Qed.

Lemma fold_applyPair_other f ps : forall o,
  (forall p, In p ps -> assigns f p = false) ->
  get f (fold_left applyPair ps o) = get f o.
Proof.
  induction ps as [|p ps IH]; intros o H; simpl; [reflexivity|].
  rewrite IH by (intros q Hq; apply H; now right).
  apply applyPair_other, H. now left.
Qed.

Lemma setDefault_truthy f v o :
  truthy (Some v) = true -> truthy (get f (setDefault f v o)) = true.
Proof.
  intros Hv. unfold setDefault.
  destruct (truthy (get f o)) eqn:E; [exact E|].
  now rewrite get_set_same.
Qed.

Lemma setDefault_other f g v o : f <> g -> get f (setDefault g v o) = get f o.
Proof.
  intros Hne. unfold setDefault.
  destruct (truthy (get g o)); [reflexivity|]. now apply get_set_other.
Qed.

Lemma setDefault_unset f v o : get f o = None -> get f (setDefault f v o) = Some v.
Proof.
  intros H. unfold setDefault. rewrite H. simpl. apply get_set_same.
Qed.

Lemma queryOverride_other sp f g conv o :
  f <> g -> get f (queryOverride sp g conv o) = get f o.
Proof.
  intros Hne. unfold queryOverride.
  destruct (URLSearchParams.get g sp); [|reflexivity]. now apply get_set_other.
Qed.

Lemma queryOverride_absent sp g conv o :
  URLSearchParams.get g sp = None -> queryOverride sp g conv o = o.
Proof. intros H. unfold queryOverride. now rewrite H. Qed.

Lemma queryOverride_present sp g conv o v :
  URLSearchParams.get g sp = Some v ->
  get g (queryOverride sp g conv o) = Some (conv v).
Proof. intros H. unfold queryOverride. rewrite H. apply get_set_same. Qed.

(** The parser, as the pairs, the four overrides and the defaults. *)
Lemma parseTransformOptions_unfold sp :
  parseTransformOptions sp =
  applyDefaults
    (queryOverride sp "format" VStr
       (queryOverride sp "quality" (fun v => VNum (parseInt v))
          (queryOverride sp "height" (fun v => VNum (parseInt v))
             (queryOverride sp "width" (fun v => VNum (parseInt v))
                (fold_left applyPair (transformPairs (transformOf sp)) []))))).
Proof. reflexivity. Qed.

Lemma parsePath_unfold s :
  parsePath s = applyDefaults (fold_left applyPair (transformPairs s) []).
Proof. reflexivity. Qed.

Lemma mentions_false f s :
  mentions f s = false ->
  forall p, In p (transformPairs s) -> assigns f p = false.
Proof.
  unfold mentions. intros H p Hp.
  destruct (assigns f p) eqn:E; [|reflexivity].
  assert (existsb (assigns f) (transformPairs s) = true)
    by (apply existsb_exists; eauto).
  congruence.
Qed.

Lemma assignment_quality key value f v :
  assignment key value = Some (f, v) -> f = "quality" ->
  v = VNum (parseInt value).
Proof.
  unfold assignment.
  repeat match goal with
         | |- context [if ?c then _ else _] => destruct c
         end; intros H; inversion H; subst; try discriminate; reflexivity.
Qed.

Lemma applyPair_cases o p :
  applyPair o p = o
  \/ exists key value f v,
       assignment key value = Some (f, v) /\ applyPair o p = set f v o.
Proof.
  unfold applyPair.
  destruct (key_value p) as [key [value|]]; [|now left].
  destruct (nonempty key && nonempty value); [|now left].
  destruct (assignment key value) as [[f v]|] eqn:E; [|now left].
  right. now exists key, value, f, v.
Qed.

Lemma quality_read_fold ps : forall o,
  quality_read o -> quality_read (fold_left applyPair ps o).
Proof.
  induction ps as [|p ps IH]; intros o Ho; simpl; [exact Ho|].
  apply IH. destruct (applyPair_cases o p) as [->|(key & value & f & v & Ha & ->)];
    [exact Ho|].
  intros x Hx. destruct (String.eqb_spec f "quality") as [->|Hne].
  - rewrite get_set_same in Hx. injection Hx as <-.
    exists value. now apply (assignment_quality key value "quality").
  - rewrite get_set_other in Hx by congruence. now apply Ho.
Qed.

Lemma quality_read_overrides sp o :
  quality_read o ->
  quality_read
    (queryOverride sp "format" VStr
       (queryOverride sp "quality" (fun v => VNum (parseInt v))
          (queryOverride sp "height" (fun v => VNum (parseInt v))
             (queryOverride sp "width" (fun v => VNum (parseInt v)) o)))).
Proof.
  intros Ho x. rewrite queryOverride_other by discriminate.
  destruct (URLSearchParams.get "quality" sp) as [q|] eqn:E.
  - rewrite (queryOverride_present _ _ _ _ q E). intros [= <-]. now exists q.
  - rewrite (queryOverride_absent _ _ _ _ E).
    rewrite !queryOverride_other by discriminate. apply Ho.
Qed.

Lemma quality_applyDefaults o :
  quality (applyDefaults o)
  = if truthy (get "quality" o) then get "quality" o else Some (VNum (of_Z 85)).
Proof.
  unfold quality, applyDefaults.
  rewrite !setDefault_other by discriminate.
  unfold setDefault. destruct (truthy (get "quality" o)); [reflexivity|].
  apply get_set_same.
Qed.

Lemma format_applyDefaults o :
  format (applyDefaults o)
  = if truthy (get "format" o) then get "format" o else Some (VStr "auto").
Proof.
  unfold format, applyDefaults.
  rewrite setDefault_other by discriminate.
  unfold setDefault at 1. destruct (truthy (get "format" _)) eqn:E.
  - rewrite setDefault_other in E |- * by discriminate. now rewrite E.
  - rewrite get_set_same. rewrite setDefault_other in E by discriminate.
    now rewrite E.
Qed.

Lemma fit_applyDefaults o :
  fit (applyDefaults o)
  = if truthy (get "fit" o) then get "fit" o else Some (VStr "scale-down").
Proof.
  unfold fit, applyDefaults.
  unfold setDefault at 1. destruct (truthy (get "fit" _)) eqn:E.
  - rewrite !setDefault_other in E |- * by discriminate. now rewrite E.
  - rewrite get_set_same. rewrite !setDefault_other in E by discriminate.
    now rewrite E.
Qed.

(** Fields other than the three defaulted ones pass through. *)
Lemma other_applyDefaults f o :
  f <> "quality" -> f <> "format" -> f <> "fit" ->
  get f (applyDefaults o) = get f o.
Proof.
  intros. unfold applyDefaults. now rewrite !setDefault_other.
Qed.

(** A numeric field is assigned under one of the eight numeric names. *)
Lemma assignment_number key value f n :
  assignment key value = Some (f, VNum n) ->
  In f ["width"; "height"; "quality"; "blur"; "brightness"; "contrast";
        "gamma"; "sharpen"].
Proof.
  unfold assignment.
  repeat match goal with
         | |- context [if ?c then _ else _] => destruct c
         end; intros H; inversion H; subst; simpl; tauto.
Qed.

Lemma applyPair_assign o p key v f x :
  key_value p = (key, Some v) ->
  nonempty key && nonempty v = true ->
  assignment key v = Some (f, x) ->
  applyPair o p = set f x o.
Proof.
  intros Hk Hn Ha. unfold applyPair. now rewrite Hk, Hn, Ha.
Qed.

(** The field the last assigning pair leaves. *)
Lemma fold_applyPair_last ps p qs key v f x o :
  key_value p = (key, Some v) ->
  nonempty key && nonempty v = true ->
  assignment key v = Some (f, x) ->
  existsb (assigns f) qs = false ->
  get f (fold_left applyPair (ps ++ p :: qs) o) = Some x.
Proof.
  intros Hk Hn Ha Hq. rewrite fold_left_app. simpl.
  rewrite fold_applyPair_other.
  - rewrite (applyPair_assign _ p key v f x Hk Hn Ha). apply get_set_same.
  - intros q Hin. destruct (assigns f q) eqn:E; [|reflexivity].
    assert (existsb (assigns f) qs = true) by (apply existsb_exists; eauto).
    congruence.
Qed.

(** The option string the router binds. *)
Lemma options_bound req :
  or_empty (param (imageRoute req) "options") = param_options req.
Proof. reflexivity. Qed.

End ParserFacts.

(** ** The image route, as the router calls it *)

Module HandlerFacts.

Import JS ImageWorker Spec.

(** The wildcard is bound on neither route. *)
Lemma wildcard_unbound req :
  param (imageRoute req) "*" = None /\ param (infoRoute req) "*" = None.
Proof. split; reflexivity. Qed.

(** The first test of the [try] sends every request away. *)
Lemma tryOptimize_rejects env req log :
  tryOptimize env req log = (Ok (c_text "Image path required" 400), log).
Proof. reflexivity. Qed.

Lemma serve_rejects env req :
  serve env req = (Ok (c_text "Image path required" 400), []).
Proof.
  unfold serve, handler, try_catch. now rewrite tryOptimize_rejects.
Qed.

End HandlerFacts.

(** ** The parser's contract *)

Module Parser.

Import JS ImageWorker Spec ParserFacts.

Example parse_empty :
  parsePath EmptyString
  = [("quality", VNum (of_Z 85)); ("format", VStr "auto");
     ("fit", VStr "scale-down")].
Proof. reflexivity. Qed.

Example parse_garbage :
  parsePath "foo=1,blur,height=,=3,,bar" = parsePath EmptyString.
Proof. reflexivity. Qed.

(** C4.  The parser is a total function of the option string (none of the
    built-ins it calls raises), so it returns a directive for every string,
    the empty one and garbage included.  The directive is the one the
    effective pairs alone produce: a pair without a value, with an empty key
    or value, or with an unrecognised key leaves no trace.  Its [quality],
    [format] and [fit] are always set, and are 85, [auto] and [scale-down]
    when no pair of the string assigns them. *)
Theorem parse_permissive_and_defaulted (s : string) :
  parsePath s
  = applyDefaults (fold_left applyPair (filter effective (transformPairs s)) [])
  /\ truthy (quality (parsePath s)) = true
  /\ truthy (format (parsePath s)) = true
  /\ truthy (fit (parsePath s)) = true
  /\ (mentions "quality" s = false ->
      quality (parsePath s) = Some (VNum (of_Z 85)))
  /\ (mentions "format" s = false ->
      format (parsePath s) = Some (VStr "auto"))
  /\ (mentions "fit" s = false ->
      fit (parsePath s) = Some (VStr "scale-down")).
Proof.
  rewrite parsePath_unfold.
  set (o := fold_left applyPair (transformPairs s) []).
  split; [unfold o; now rewrite <- fold_applyPair_effective|].
  rewrite quality_applyDefaults, format_applyDefaults, fit_applyDefaults.
  repeat split.
  - destruct (truthy (get "quality" o)) eqn:E; [exact E | reflexivity].
  - destruct (truthy (get "format" o)) eqn:E; [exact E | reflexivity].
  - destruct (truthy (get "fit" o)) eqn:E; [exact E | reflexivity].
  - intros H. unfold o.
    rewrite (fold_applyPair_other "quality") by now apply mentions_false.
    reflexivity.
  - intros H. unfold o.
    rewrite (fold_applyPair_other "format") by now apply mentions_false.
    reflexivity.
  - intros H. unfold o.
    rewrite (fold_applyPair_other "fit") by now apply mentions_false.
    reflexivity.
Qed.

Lemma parse_permissive_and_defaulted_witness :
  quality (parsePath "width=abc,foo=1,blur,height=") = Some (VNum (of_Z 85))
  /\ format (parsePath "width=abc,foo=1,blur,height=") = Some (VStr "auto")
  /\ fit (parsePath "width=abc,foo=1,blur,height=") = Some (VStr "scale-down").
Proof.
  pose proof (parse_permissive_and_defaulted "width=abc,foo=1,blur,height=")
    as (_ & _ & _ & _ & Hq & Hf & Hfit).
  split; [|split].
  - apply Hq. reflexivity.
  - apply Hf. reflexivity.
  - apply Hfit. reflexivity.
Defined.

(** C10, as the code has it.  The quality of a parsed directive is never
    unset, NaN or zero: it is a non-zero integer, or an infinity when the
    digits read are beyond the range of a binary64.  It is 85 when neither
    the transform string nor a [quality] entry specifies one, and when the
    one specified reads as NaN or zero.  Otherwise it is what [parseInt]
    reads from the [quality] entry or, without such an entry, from the
    last quality pair of the transform string, whatever its size: nothing
    brings it into [1,100]. *)
Theorem quality_is_never_falsy (sp : URLSearchParams.t) :
  (exists n, quality (parseTransformOptions sp) = Some (VNum n)
             /\ number_truthy n = true
             /\ ((exists z, to_Z n = Some z /\ z <> 0)
                 \/ exists neg, n = Infinity neg))
  /\ (URLSearchParams.get "quality" sp = None ->
      mentions "quality" (transformOf sp) = false ->
      quality (parseTransformOptions sp) = Some (VNum (of_Z 85)))
  /\ (forall v, URLSearchParams.get "quality" sp = Some v ->
      quality (parseTransformOptions sp)
      = Some (VNum (if number_truthy (parseInt v) then parseInt v else of_Z 85)))
  /\ (forall ps p qs key v,
      URLSearchParams.get "quality" sp = None ->
      transformPairs (transformOf sp) = (ps ++ p :: qs)%list ->
      existsb (assigns "quality") qs = false ->
      key_value p = (key, Some v) ->
      nonempty key && nonempty v = true ->
      key_is key ["quality"; "q"] = true ->
      quality (parseTransformOptions sp)
      = Some (VNum (if number_truthy (parseInt v) then parseInt v else of_Z 85))).
Proof.
  rewrite parseTransformOptions_unfold, quality_applyDefaults.
  set (o0 := fold_left applyPair (transformPairs (transformOf sp)) []).
  assert (R : quality_read
            (queryOverride sp "format" VStr
               (queryOverride sp "quality" (fun v => VNum (parseInt v))
                  (queryOverride sp "height" (fun v => VNum (parseInt v))
                     (queryOverride sp "width" (fun v => VNum (parseInt v)) o0))))).
  { apply quality_read_overrides, quality_read_fold. intros v. discriminate. }
  split; [|split; [|split]].
  - destruct (truthy (get "quality" _)) eqn:E.
    + destruct (get "quality" _) as [v|] eqn:G; [|discriminate].
      destruct (R v G) as [q ->].
      destruct (parseInt_shape q) as [Hq|[(neg & Hq)|(neg & m & Hq)]];
        rewrite Hq in *; [discriminate | |].
      * exists (Infinity neg). split; [reflexivity|]. split; [reflexivity|].
        right. now exists neg.
      * exists (Finite neg m 0). split; [reflexivity|]. split; [exact E|].
        left. simpl in E. apply negb_true_iff, N.eqb_neq in E.
        exists (if neg then - Z.of_N m else Z.of_N m).
        split; [reflexivity|]. destruct neg; lia.
    + exists (of_Z 85). split; [reflexivity|]. split; [reflexivity|].
      left. exists 85. split; [reflexivity | lia].
  - intros Hq Hm.
    rewrite queryOverride_other by discriminate.
    rewrite (queryOverride_absent _ _ _ _ Hq).
    rewrite !queryOverride_other by discriminate.
    unfold o0. rewrite (fold_applyPair_other "quality") by now apply mentions_false.
    reflexivity.
  - intros v Hv.
    rewrite queryOverride_other by discriminate.
    rewrite (queryOverride_present _ _ _ _ v Hv). simpl.
    now destruct (number_truthy (parseInt v)).
  - intros ps p qs key v Hq Hps Hqs Hkv Hne Hkey.
    rewrite queryOverride_other by discriminate.
    rewrite (queryOverride_absent _ _ _ _ Hq).
    rewrite !queryOverride_other by discriminate.
    assert (Ha : assignment key v = Some ("quality", VNum (parseInt v))).
    { unfold assignment.
      repeat match goal with
             | |- context [if key_is key ?l then _ else _] =>
                 let E := fresh "E" in
                 destruct (key_is key l) eqn:E;
                 [simpl in E, Hkey;
                  repeat match goal with
                         | H : (_ || _)%bool = true |- _ =>
                             apply orb_true_iff in H; destruct H
                         | H : String.eqb key _ = true |- _ =>
                             apply String.eqb_eq in H; subst key
                         end; try discriminate; try reflexivity|]
             end.
      discriminate. }
    unfold o0. rewrite Hps.
    rewrite (fold_applyPair_last ps p qs key v "quality" _ [] Hkv Hne Ha Hqs).
    simpl. now destruct (number_truthy (parseInt v)).
Qed.

Lemma quality_is_never_falsy_witness :
  quality (parseTransformOptions [("transform", "width=320")])
    = Some (VNum (of_Z 85))
  /\ quality (parseTransformOptions [("transform", "quality=80"); ("quality", "500")])
    = Some (VNum (of_Z 500))
  /\ quality (parseTransformOptions [("transform", "q=90,width=10,quality=-5,blur=1")])
    = Some (VNum (of_Z (-5))).
Proof.
  split; [|split].
  - apply (quality_is_never_falsy [("transform", "width=320")]); reflexivity.
  - exact (proj1 (proj2 (proj2 (quality_is_never_falsy
             [("transform", "quality=80"); ("quality", "500")])))
             "500" eq_refl).
  - exact (proj2 (proj2 (proj2 (quality_is_never_falsy
             [("transform", "q=90,width=10,quality=-5,blur=1")])))
             ["q=90"; "width=10"] "quality=-5" ["blur=1"] "quality" "-5"
             eq_refl eq_refl eq_refl eq_refl eq_refl eq_refl).
Defined.

(** A quality of 310 digits is beyond the binary64 range, and is kept as
    an infinity; one of 17 digits is rounded. *)
Example quality_overflows :
  quality (parsePath ("quality=1" ++ zeros 309)) = Some (VNum (Infinity false))
  /\ quality (parsePath "quality=9007199254740993")
     = Some (VNum (of_Z 9007199254740992)).
Proof. split; vm_compute; reflexivity. Qed.

(** C10 as stated fails: [quality=500] parses to the quality 500. *)
Lemma quality_out_of_range :
  quality (parsePath "quality=500") = Some (VNum (of_Z 500))
  /\ ~ quality_in_range (parsePath "quality=500").
Proof.
  split; [reflexivity|].
  intros (q & Hq & Hr). vm_compute in Hq.
  injection Hq as Hneg Habs.
  destruct q; simpl in *; try discriminate. 
  injection Habs as <-. lia.
Qed.

End Parser.

(** ** The request handler *)

Module Handler.

Import JS ImageWorker Spec HandlerFacts.

(** What the part of the [try] after its first test does with an image
    path: the calls of a request for a resized, blurred and sharpened
    image. *)
Example optimize_example :
  snd (optimize Scenario.healthy
         (Scenario.request "width=300,blur=3,sharpen=1.5" Scenario.desktop "image/webp")
         "paintings/harbour.jpg" [])
  = [R2Get (Some "paintings/harbour.jpg");
     ImagesInput "RAW-JPEG-BYTES";
     ImagesOp (Transform [("width", VNum (of_Z 300)); ("fit", VStr "scale-down")]);
     ImagesOp (Blur (VNum (of_Z 3)));
     ImagesOp (Sharpen (VNum (Finite false 15 (-1))));
     ImagesOutput [("quality", VNum (of_Z 85)); ("format", VStr "image/webp")]].
Proof. reflexivity. Qed.

(** C1.  The fallback is never served.  The handler reads the image path
    with [c.req.param('*')], which the router binds to nothing, so its
    first test answers 400 before the fetch: nothing can throw, the
    [catch] block is not entered, the bucket is not asked a second time
    (nor a first), and no answer carries [X-Fallback].  So it is for the
    request of an image the bucket holds, with a binding whose encode
    step throws. *)
Theorem fallback_is_never_served :
  (forall env req,
     exists r,
       serve env req = (Ok r, [])
       /\ status r = 400
       /\ body r = "Image path required"
       /\ Headers.get "X-Fallback" (headers r) = None)
  /\ serve Scenario.encode_fails
       (Scenario.request "width=300" Scenario.desktop "image/webp")
     = (Ok (c_text "Image path required" 400), []).
Proof.
  split; [|reflexivity].
  intros env req. exists (c_text "Image path required" 400).
  rewrite serve_rejects. repeat split.
Qed.

(** C2.  An absent key is not reported.  For the request of an image the
    bucket does not hold the answer is the 400 of the first test, not
    404, and the bucket is not asked at all: no request is answered
    404. *)
Theorem absent_key_is_answered_400 :
  (forall env req,
     fst (serve env req) <> Ok (c_text "Image not found" 404)
     /\ forall key, ~ In (R2Get key) (snd (serve env req)))
  /\ serve Scenario.empty_bucket
       (Scenario.request "width=320" Scenario.iPhone "image/avif")
     = (Ok (c_text "Image path required" 400), []).
Proof.
  split; [|reflexivity].
  intros env req. rewrite serve_rejects. split; [discriminate|].
  intros key [].
Qed.

(** C3.  No format is negotiated.  The encoder is never called, whatever
    the bucket, the binding, the option string and the [Accept] header:
    the request for [format=png] from a client that accepts avif is
    answered 400 with no call.  The lines that choose the format would
    pass [image/png] for it. *)
Theorem encoder_is_never_called :
  (forall env req oo, ~ In (ImagesOutput oo) (snd (serve env req)))
  /\ serve Scenario.healthy
       (Scenario.request "format=png" Scenario.desktop "image/avif,image/webp")
     = (Ok (c_text "Image path required" 400), [])
  /\ outputOptions
       (resolveOptions
          (Scenario.request "format=png" Scenario.desktop "image/avif,image/webp"))
       "image/avif,image/webp"
     = [("quality", VNum (of_Z 85)); ("format", VStr "image/png")].
Proof.
  split; [|split; reflexivity].
  intros env req oo. rewrite serve_rejects. intros [].
Qed.

(** C7.  No step of the pipeline runs.  The image binding is never given
    an image, so neither the resize nor a filter is applied: the request
    for a resized and blurred image is answered 400 with no call.
    Besides, the resize options the handler would build hold the width,
    the height and the fit only: the gravity and the background of the
    directive are put in no step. *)
Theorem pipeline_never_runs :
  (forall env req,
     (forall bytes, ~ In (ImagesInput bytes) (snd (serve env req)))
     /\ forall o, ~ In (ImagesOp o) (snd (serve env req)))
  /\ serve Scenario.healthy
       (Scenario.request "width=300,blur=5" Scenario.desktop "image/webp")
     = (Ok (c_text "Image path required" 400), [])
  /\ resizeOptions (parsePath "width=300,height=200,gravity=left,background=red")
     = [("width", VNum (of_Z 300)); ("height", VNum (of_Z 200));
        ("fit", VStr "scale-down")].
Proof.
  split; [|split; reflexivity].
  intros env req. rewrite serve_rejects. split; intros x [].
Qed.

(** C8.  No optimised answer is given.  Every answer of the handler is
    the 400 text of its first test, on which it sets none of
    [X-Image-Optimized], [X-Transform-Options] and [Vary]; so it is with
    a bucket that holds the image and a binding that works. *)
Theorem optimized_headers_are_never_sent :
  (forall env req,
     exists r,
       fst (serve env req) = Ok r
       /\ status r = 400
       /\ Headers.get "X-Image-Optimized" (headers r) = None
       /\ Headers.get "X-Transform-Options" (headers r) = None
       /\ Headers.get "Vary" (headers r) = None)
  /\ serve Scenario.healthy
       (Scenario.request "width=300,quality=80" Scenario.desktop "image/webp")
     = (Ok (c_text "Image path required" 400), []).
Proof.
  split; [|reflexivity].
  intros env req. exists (c_text "Image path required" 400).
  rewrite serve_rejects. repeat split.
Qed.

End Handler.

(** ** Malformed values, the width of the device and the query string *)

Module Resolution.

Import JS ImageWorker Spec ParserFacts HandlerFacts.

Example iPad_is_both :
  isMobile Scenario.iPad = true /\ isTablet Scenario.iPad = true
  /\ getResponsiveWidth Scenario.iPad None = of_Z 768.
Proof. repeat split. Qed.

Example widths_by_device :
  getResponsiveWidth Scenario.iPhone None = of_Z 320
  /\ getResponsiveWidth "Mozilla/5.0 (Linux; Android 14; Tablet)" None = of_Z 768
  /\ getResponsiveWidth Scenario.desktop None = of_Z 1200
  /\ getResponsiveWidth EmptyString None = of_Z 1200.
Proof. repeat split. Qed.

(** C6.  A numeric width does not override the width of the device.
    [getResponsiveWidth] returns the device classes' widths without a
    requested width, and a requested width that is neither zero nor NaN
    whatever the user-agent; but the handler calls it with the
    user-agent alone, so for [width=auto,w=500] it would resolve the
    width 320 of a phone where the parser has read 500.  As the route
    runs, the request is answered 400 before any width is resolved. *)
Theorem requested_width_is_never_passed :
  (forall userAgent,
     (isMobile userAgent = true -> isTablet userAgent = false ->
      getResponsiveWidth userAgent None = of_Z 320)
     /\ (isTablet userAgent = true ->
         getResponsiveWidth userAgent None = of_Z 768)
     /\ (isMobile userAgent = false -> isTablet userAgent = false ->
         getResponsiveWidth userAgent None = of_Z 1200))
  /\ (forall userAgent w,
        number_truthy w = true -> getResponsiveWidth userAgent (Some w) = w)
  /\ getResponsiveWidth Scenario.iPhone (Some (of_Z 500)) = of_Z 500
  /\ width (parsePath "width=auto,w=500") = Some (VNum (of_Z 500))
  /\ width (resolveOptions
              (Scenario.request "width=auto,w=500" Scenario.iPhone "image/webp"))
     = Some (VNum (of_Z 320))
  /\ (forall env,
        serve env (Scenario.request "width=auto,w=500" Scenario.iPhone "image/webp")
        = (Ok (c_text "Image path required" 400), [])).
Proof.
  split.
  { intros ua. unfold getResponsiveWidth. repeat split.
    - now intros -> ->.
    - intros ->. now rewrite andb_false_r.
    - now intros -> ->. }
  split.
  { intros ua w Hw. unfold getResponsiveWidth. now rewrite Hw. }
  repeat split.
Qed.

(** C9.  The query string is never read.  The parser lets a [width]
    entry of its argument override the transform string, but the handler
    gives it an argument that holds the path option string alone: the
    directive and the answer of a request are those of the request
    without its query.  For the path [width=100] with the query
    [width=200] the directive would hold 100; as the route runs, the
    answer is 400 with and without the query. *)
Theorem query_is_never_read :
  width (parseTransformOptions [("transform", "width=100"); ("width", "200")])
  = Some (VNum (of_Z 200))
  /\ (forall req q, resolveOptions (with_query req q) = resolveOptions req)
  /\ (forall env req q, serve env (with_query req q) = serve env req)
  /\ width (resolveOptions
              (with_query (Scenario.request "width=100" Scenario.desktop "image/webp")
                          [("width", "200")]))
     = Some (VNum (of_Z 100))
  /\ (forall env,
        serve env
          (with_query (Scenario.request "width=100" Scenario.desktop "image/webp")
                      [("width", "200")])
        = (Ok (c_text "Image path required" 400), [])).
Proof. repeat split. Qed.

(** C5 as stated fails: a malformed numeric value does not leave its
    field unset.  The field holds NaN, and the directive differs from the
    one without the pair. *)
Lemma malformed_value_is_kept :
  brightness (parsePath "quality=85,brightness=xyz") = Some (VNum NaN)
  /\ brightness (parsePath "quality=85") = None
  /\ width (parsePath "quality=85,width=abc") = Some (VNum NaN)
  /\ width (parsePath "quality=85") = None
  /\ parsePath "quality=85,width=abc" <> parsePath "quality=85".
Proof. repeat split. discriminate. Qed.

(** C5, as the code has it.  Take an option string in which the last pair
    that assigns a numeric field has a value the parser reads as NaN.  The
    parse goes through, and the field holds NaN instead of being left
    unset; only the quality takes its default 85. *)
Theorem malformed_value_is_NaN s ps p qs key v f :
  transformPairs s = (ps ++ p :: qs)%list ->
  existsb (assigns f) qs = false ->
  key_value p = (key, Some v) ->
  nonempty key && nonempty v = true ->
  assignment key v = Some (f, VNum NaN) ->
  (f = "quality" -> quality (parsePath s) = Some (VNum (of_Z 85)))
  /\ (f <> "quality" -> get f (parsePath s) = Some (VNum NaN)).
Proof.
  intros Hps Hqs Hkv Hne Has.
  assert (Raw : get f (fold_left applyPair (transformPairs s) [])
                = Some (VNum NaN)).
  { rewrite Hps. now apply (fold_applyPair_last ps p qs key v). }
  split.
  - intros ->. rewrite parsePath_unfold, quality_applyDefaults, Raw. reflexivity.
  - intros Hq. rewrite parsePath_unfold, other_applyDefaults; [exact Raw|exact Hq| |].
    + pose proof (assignment_number key v f NaN Has) as Hin. simpl in Hin.
      intros ->. intuition discriminate.
    + pose proof (assignment_number key v f NaN Has) as Hin. simpl in Hin.
      intros ->. intuition discriminate.
Qed.

Lemma malformed_value_is_NaN_witness :
  (gamma (parsePath "gamma=2.2,width=300,gamma=high,blur=2") = Some (VNum NaN)
   /\ width (parsePath "w=wide") = Some (VNum NaN))
  /\ quality (parsePath "quality=best") = Some (VNum (of_Z 85)).
Proof.
  pose proof (malformed_value_is_NaN "gamma=2.2,width=300,gamma=high,blur=2"
                ["gamma=2.2"; "width=300"] "gamma=high" ["blur=2"]
                "gamma" "high" "gamma"
                eq_refl eq_refl eq_refl eq_refl eq_refl) as (_ & Hg).
  pose proof (malformed_value_is_NaN "w=wide" [] "w=wide" [] "w" "wide" "width"
                eq_refl eq_refl eq_refl eq_refl eq_refl) as (_ & Hw).
  pose proof (malformed_value_is_NaN "quality=best" [] "quality=best" []
                "quality" "best" "quality"
                eq_refl eq_refl eq_refl eq_refl eq_refl) as (Hq & _).
  split; [split|].
  - apply Hg. discriminate.
  - apply Hw. discriminate.
  - now apply Hq.
Defined.

End Resolution.

(** ** Strings: splitting and searching *)

Module StringFacts.

Import JS More.

Lemma split_nonnil c s : split c s <> [].
Proof.
  destruct s as [|a r]; simpl; [discriminate|].
  destruct (Ascii.eqb a c); [discriminate|].
  destruct (split c r); discriminate.
Qed.

(** Splitting at a separator splits both sides. *)
Lemma split_app c a b :
  split c (a ++ String c b) = (split c a ++ split c b)%list.
Proof.
  induction a as [|x a IH]; simpl.
  - now rewrite Ascii.eqb_refl.
  - destruct (Ascii.eqb x c); [now rewrite IH|].
    rewrite IH. pose proof (split_nonnil c a).
    destruct (split c a); [contradiction | reflexivity].
Qed.

Lemma split_none c s : has_char c s = false -> split c s = [s].
Proof.
  induction s as [|x s IH]; simpl; [reflexivity|].
  intros H. apply orb_false_iff in H. destruct H as [H1 H2].
  now rewrite H1, (IH H2).
Qed.

(** A separator-free head stays glued to the first piece. *)
Lemma split_prepend c pre s :
  has_char c pre = false ->
  split c (pre ++ s)
  = match split c s with
    | h :: t => (pre ++ h) :: t
    | [] => [pre]
    end.
Proof.
  induction pre as [|x pre IH]; simpl; intros H.
  - pose proof (split_nonnil c s). now destruct (split c s).
  - apply orb_false_iff in H. destruct H as [H1 H2].
    rewrite H1, (IH H2). pose proof (split_nonnil c s).
    now destruct (split c s).
Qed.

Lemma append_assoc (a b c : string) : (a ++ b) ++ c = a ++ (b ++ c).
Proof. induction a as [|x a IH]; simpl; congruence. Qed.

Lemma append_nil_r (s : string) : s ++ EmptyString = s.
Proof. induction s; simpl; congruence. Qed.

Lemma has_char_app c a b :
  has_char c (a ++ b) = has_char c a || has_char c b.
Proof.
  induction a as [|x a IH]; simpl; [reflexivity|].
  now rewrite IH, orb_assoc.
Qed.

Lemma prefix_app n b : String.prefix n (n ++ b) = true.
Proof.
  induction n as [|x n IH]; simpl; [now destruct b|].
  destruct (ascii_dec x x); [exact IH | contradiction].
Qed.

Lemma includes_here n b : includes n (n ++ b) = true.
Proof.
  destruct (n ++ b) eqn:E.
  - destruct n; [reflexivity | discriminate].
  - rewrite <- E. destruct (n ++ b) eqn:F; [discriminate|].
    unfold includes; fold includes. rewrite <- F, prefix_app. reflexivity.
Qed.

Lemma includes_app n a b : includes n (a ++ n ++ b) = true.
Proof.
  induction a as [|x a IH]; simpl.
  - apply includes_here.
  - rewrite IH. apply orb_true_r.
Qed.

Lemma prefix_has c n s :
  String.prefix (String c n) s = true -> has_char c s = true.
Proof.
  destruct s as [|a s]; simpl; [discriminate|].
  destruct (ascii_dec c a) as [->|]; [|discriminate].
  now rewrite Ascii.eqb_refl.
Qed.

Lemma includes_has c n s :
  includes (String c n) s = true -> has_char c s = true.
Proof.
  induction s as [|a s IH]; [discriminate|].
  unfold includes; fold includes. intros H.
  apply orb_true_iff in H. destruct H as [H|H].
  - now apply prefix_has in H.
  - simpl. rewrite (IH H). apply orb_true_r.
Qed.

Lemma prefix_cut c n x y :
  has_char c n = false ->
  String.prefix n (x ++ String c y) = true -> String.prefix n x = true.
Proof.
  revert x. induction n as [|m n IH]; intros x Hn H.
  - now destruct x.
  - simpl in Hn. apply orb_false_iff in Hn. destruct Hn as [Hm Hn].
    destruct x as [|a x]; simpl in *.
    + destruct (ascii_dec m c) as [->|]; [|discriminate].
      now rewrite Ascii.eqb_refl in Hm.
    + destruct (ascii_dec m a); [|discriminate]. now apply IH.
Qed.

Lemma includes_cut c n x y :
  has_char c n = false ->
  includes n (x ++ String c y) = true ->
  includes n x = true \/ includes n y = true.
Proof.
  intros Hn. induction x as [|a x IH]; intros H.
  - change (EmptyString ++ String c y) with (String c y) in H.
    unfold includes in H; fold includes in H.
    apply orb_true_iff in H. destruct H as [H|H]; [|now right].
    left. apply (prefix_cut c n EmptyString y Hn) in H.
    unfold includes. now rewrite H.
  - change (String a x ++ String c y) with (String a (x ++ String c y)) in H.
    unfold includes in H; fold includes in H.
    apply orb_true_iff in H. destruct H as [H|H].
    + left. apply (prefix_cut c n (String a x) y Hn) in H.
      unfold includes; fold includes. now rewrite H.
    + destruct (IH H) as [G|G]; [left | now right].
      unfold includes; fold includes. rewrite G. apply orb_true_r.
Qed.

(** A word without comma that occurs in a comma-joined list occurs in one
    of its elements. *)
Lemma includes_join n l :
  has_char "," n = false ->
  includes n (join "," l) = true ->
  l = [] \/ exists p, In p l /\ includes n p = true.
Proof.
  intros Hn. induction l as [|x l IH]; [now left|]. intros H. right.
  destruct l as [|y r].
  - exists x. split; [now left | exact H].
  - change (join "," (x :: y :: r)) with (x ++ String "," (join "," (y :: r))) in H.
    apply includes_cut in H; [|exact Hn]. destruct H as [H|H].
    + exists x. split; [now left | exact H].
    + destruct (IH H) as [E|(p & Hp & Hi)]; [discriminate|].
      exists p. split; [now right | exact Hi].
Qed.

(** A number pair holds no [width=auto]. *)
Lemma number_pair_no_auto key t :
  In key ["width"; "height"; "quality"] ->
  has_char "a" t = false -> has_char "w" t = false ->
  includes "width=auto" (key ++ "=" ++ t) = false.
Proof.
  intros Hk Ha Hw.
  assert (P : String.prefix "auto" t = false).
  { destruct (String.prefix "auto" t) eqn:E; [|reflexivity].
    apply prefix_has in E. congruence. }
  assert (I : includes "width=auto" t = false).
  { destruct (includes "width=auto" t) eqn:E; [|reflexivity].
    apply includes_has in E. congruence. }
  destruct Hk as [<-|[<-|[<-|[]]]]; cbn -[includes String.prefix];
    unfold includes; fold includes;
    repeat (cbn [String.prefix append]; unfold includes; fold includes;
            cbn [String.prefix append orb]);
    cbn; rewrite ?P, ?I; reflexivity.
Qed.

End StringFacts.

(** ** More on the parser *)

Module ParserMore.

Import JS ImageWorker Spec More ParserFacts StringFacts.

(** What the [switch] stores, by the kind of the field. *)
Lemma assignment_kinds key v f x :
  assignment key v = Some (f, x) ->
  (In f ["width"; "height"; "quality"; "blur"] /\ x = VNum (parseInt v))
  \/ (In f ["format"; "fit"; "gravity"; "background"] /\ x = VStr v)
  \/ (In f ["brightness"; "contrast"; "gamma"; "sharpen"]
      /\ x = VNum (parseFloat v)).
Proof.
  unfold assignment.
  repeat match goal with
         | |- context [if ?c then _ else _] => destruct c
         end; intros H; inversion H; subst; simpl; tauto.
Qed.

(** X1.  When several pairs of an option string assign a field, the last
    one decides it: the directive holds what that pair assigns, except
    that a quality read as NaN or zero gives way to the default. *)
Theorem last_pair_wins s ps p qs key v f x :
  transformPairs s = (ps ++ p :: qs)%list ->
  key_value p = (key, Some v) ->
  nonempty key && nonempty v = true ->
  assignment key v = Some (f, x) ->
  existsb (assigns f) qs = false ->
  f <> "quality" \/ truthy (Some x) = true ->
  get f (parsePath s) = Some x.
Proof.
  intros Hs Hkv Hne Ha Hq Hok.
  assert (Raw : get f (fold_left applyPair (transformPairs s) []) = Some x).
  { rewrite Hs. now apply (fold_applyPair_last ps p qs key v). }
  assert (T : f = "format" \/ f = "fit" -> truthy (Some x) = true).
  { intros Hf.
    destruct (assignment_kinds _ _ _ _ Ha) as [[Hin _]|[[_ ->]|[Hin _]]].
    - simpl in Hin. destruct Hf; subst; intuition discriminate.
    - simpl. apply andb_true_iff in Hne. tauto.
    - simpl in Hin. destruct Hf; subst; intuition discriminate. }
  rewrite parsePath_unfold.
  destruct (String.eqb_spec f "quality") as [->|Nq].
  { change (get "quality" (applyDefaults ?o)) with (quality (applyDefaults o)).
    rewrite quality_applyDefaults, Raw.
    destruct Hok as [Hok|Hok]; [congruence | now rewrite Hok]. }
  destruct (String.eqb_spec f "format") as [->|Nf].
  { change (get "format" (applyDefaults ?o)) with (format (applyDefaults o)).
    rewrite format_applyDefaults, Raw. rewrite T by now left. reflexivity. }
  destruct (String.eqb_spec f "fit") as [->|Nt].
  { change (get "fit" (applyDefaults ?o)) with (fit (applyDefaults o)).
    rewrite fit_applyDefaults, Raw. rewrite T by now right. reflexivity. }
  now rewrite other_applyDefaults.
Qed.

Lemma last_pair_wins_witness :
  get "width" (parsePath "width=100,quality=60,w=250,blur=2")
  = Some (VNum (of_Z 250)).
Proof.
  apply (last_pair_wins "width=100,quality=60,w=250,blur=2"
           ["width=100"; "quality=60"] "w=250" ["blur=2"] "w" "250");
    try reflexivity.
  left. discriminate.
Defined.

(** The pieces of an option string after a pair that starts with a key. *)
Lemma transformPairs_keyed s1 key rest :
  has_char "," key = false ->
  transformPairs (s1 ++ String "," (key ++ String "=" rest))
  = (transformPairs s1
     ++ match split "," rest with
        | h :: t => (key ++ String "=" h)%string :: filter nonempty t
        | [] => []
        end)%list.
Proof.
  intros Hk. unfold transformPairs.
  rewrite split_app, filter_app. f_equal.
  assert (Hk' : has_char "," (key ++ "=") = false).
  { rewrite has_char_app, Hk. reflexivity. }
  replace (key ++ String "=" rest) with ((key ++ "=") ++ rest)
    by (now rewrite append_assoc).
  rewrite (split_prepend _ _ _ Hk').
  pose proof (split_nonnil "," rest).
  destruct (split "," rest) as [|h t]; [contradiction|].
  rewrite append_assoc. simpl.
  destruct (key ++ String "=" h) eqn:E; [|reflexivity].
  destruct key; discriminate.
Qed.

Lemma transformPairs_keyed_first key rest :
  has_char "," key = false ->
  transformPairs (key ++ String "=" rest)
  = match split "," rest with
    | h :: t => (key ++ String "=" h) :: filter nonempty t
    | [] => []
    end.
Proof.
  intros Hk. unfold transformPairs.
  assert (Hk' : has_char "," (key ++ "=") = false).
  { rewrite has_char_app, Hk. reflexivity. }
  replace (key ++ String "=" rest) with ((key ++ "=") ++ rest)
    by (now rewrite append_assoc).
  rewrite (split_prepend _ _ _ Hk').
  pose proof (split_nonnil "," rest).
  destruct (split "," rest) as [|h t]; [contradiction|].
  rewrite append_assoc. simpl.
  destruct (key ++ String "=" h) eqn:E; [|reflexivity].
  destruct key; discriminate.
Qed.

(** A pair under a key without [=]: the key, and the value up to the
    next [=]. *)
Lemma key_value_keyed key h :
  has_char "=" key = false ->
  key_value (key ++ String "=" h)
  = (key, Some (match split "=" h with v :: _ => v | [] => EmptyString end)).
Proof.
  intros Hk. unfold key_value.
  rewrite split_app, (split_none _ _ Hk). simpl.
  pose proof (split_nonnil "=" h). now destruct (split "=" h).
Qed.

(** Two keys with the same assignments give the same pair. *)
Lemma applyPair_same_key k1 k2 h o :
  has_char "=" k1 = false -> has_char "=" k2 = false ->
  nonempty k1 = true -> nonempty k2 = true ->
  (forall v, assignment k1 v = assignment k2 v) ->
  applyPair o (k1 ++ String "=" h) = applyPair o (k2 ++ String "=" h).
Proof.
  intros H1 H2 N1 N2 Ha. unfold applyPair.
  rewrite (key_value_keyed k1 h H1), (key_value_keyed k2 h H2).
  now rewrite N1, N2, Ha.
Qed.

Lemma alias_anywhere k1 k2 :
  has_char "=" k1 = false -> has_char "=" k2 = false ->
  has_char "," k1 = false -> has_char "," k2 = false ->
  nonempty k1 = true -> nonempty k2 = true ->
  (forall v, assignment k1 v = assignment k2 v) ->
  forall s1 rest,
    parsePath (s1 ++ String "," (k1 ++ String "=" rest))
    = parsePath (s1 ++ String "," (k2 ++ String "=" rest))
    /\ parsePath (k1 ++ String "=" rest) = parsePath (k2 ++ String "=" rest).
Proof.
  intros E1 E2 C1 C2 N1 N2 Ha s1 rest.
  rewrite !parsePath_unfold.
  rewrite (transformPairs_keyed s1 k1 rest C1), (transformPairs_keyed s1 k2 rest C2).
  rewrite (transformPairs_keyed_first k1 rest C1), (transformPairs_keyed_first k2 rest C2).
  destruct (split "," rest) as [|h t]; [now split|].
  rewrite !fold_left_app. simpl.
  now rewrite !(applyPair_same_key k1 k2 h) by assumption.
Qed.

(** X2.  The short keys are the long ones: wherever a pair stands in an
    option string, writing it with [w], [h], [q], [f], [g] or [bg] gives
    the same directive as writing it with [width], [height], [quality],
    [format], [gravity] or [background]. *)
Theorem short_keys_are_aliases (s1 rest : string) :
  (parsePath (s1 ++ ",w=" ++ rest) = parsePath (s1 ++ ",width=" ++ rest)
   /\ parsePath ("w=" ++ rest) = parsePath ("width=" ++ rest))
  /\ (parsePath (s1 ++ ",h=" ++ rest) = parsePath (s1 ++ ",height=" ++ rest)
      /\ parsePath ("h=" ++ rest) = parsePath ("height=" ++ rest))
  /\ (parsePath (s1 ++ ",q=" ++ rest) = parsePath (s1 ++ ",quality=" ++ rest)
      /\ parsePath ("q=" ++ rest) = parsePath ("quality=" ++ rest))
  /\ (parsePath (s1 ++ ",f=" ++ rest) = parsePath (s1 ++ ",format=" ++ rest)
      /\ parsePath ("f=" ++ rest) = parsePath ("format=" ++ rest))
  /\ (parsePath (s1 ++ ",g=" ++ rest) = parsePath (s1 ++ ",gravity=" ++ rest)
      /\ parsePath ("g=" ++ rest) = parsePath ("gravity=" ++ rest))
  /\ (parsePath (s1 ++ ",bg=" ++ rest) = parsePath (s1 ++ ",background=" ++ rest)
      /\ parsePath ("bg=" ++ rest) = parsePath ("background=" ++ rest)).
Proof.
  pose proof (alias_anywhere "w" "width" eq_refl eq_refl eq_refl eq_refl
                eq_refl eq_refl (fun v => eq_refl) s1 rest) as Hw.
  pose proof (alias_anywhere "h" "height" eq_refl eq_refl eq_refl eq_refl
                eq_refl eq_refl (fun v => eq_refl) s1 rest) as Hh.
  pose proof (alias_anywhere "q" "quality" eq_refl eq_refl eq_refl eq_refl
                eq_refl eq_refl (fun v => eq_refl) s1 rest) as Hq.
  pose proof (alias_anywhere "f" "format" eq_refl eq_refl eq_refl eq_refl
                eq_refl eq_refl (fun v => eq_refl) s1 rest) as Hf.
  pose proof (alias_anywhere "g" "gravity" eq_refl eq_refl eq_refl eq_refl
                eq_refl eq_refl (fun v => eq_refl) s1 rest) as Hg.
  pose proof (alias_anywhere "bg" "background" eq_refl eq_refl eq_refl eq_refl
                eq_refl eq_refl (fun v => eq_refl) s1 rest) as Hb.
  exact (conj Hw (conj Hh (conj Hq (conj Hf (conj Hg Hb))))).
Qed.

End ParserMore.

(** ** Numbers: printing a positive integer and reading it back *)

Module NumberFacts.

Import JS More StringFacts.

Lemma read_digit_step c r acc cnt d :
  digit_val 10 c = Some d ->
  read_digits 10 (String c r) acc cnt
  = read_digits 10 r (acc * 10 + d)%N (S cnt).
Proof. intros H. simpl. now rewrite H. Qed.

Ltac read_one_digit :=
  erewrite read_digit_step by (vm_compute; reflexivity).

(** Reading the digits of a decimal numeral continues its value. *)
Lemma read_uint_acc d : forall acc cnt rest,
  read_digits 10 (DecimalString.NilEmpty.string_of_uint d ++ rest) (N.pos acc) cnt
  = read_digits 10 rest (N.pos (Pos.of_uint_acc d acc)) (cnt + Decimal.nb_digits d).
Proof.
  induction d; intros acc cnt rest; cbn [DecimalString.NilEmpty.string_of_uint
    append Pos.of_uint_acc Decimal.nb_digits];
    [now rewrite Nat.add_0_r | ..];
    read_one_digit;
    match goal with
    | |- read_digits _ _ ?a _ = read_digits _ _ (N.pos (Pos.of_uint_acc _ ?b)) _ =>
        replace a with (N.pos b) by lia
    end; rewrite IHd; f_equal; lia.
Qed.

Lemma read_uint d : forall cnt rest,
  read_digits 10 (DecimalString.NilEmpty.string_of_uint d ++ rest) 0%N cnt
  = read_digits 10 rest (Pos.of_uint d) (cnt + Decimal.nb_digits d).
Proof.
  induction d; intros cnt rest; cbn [DecimalString.NilEmpty.string_of_uint
    append Pos.of_uint Decimal.nb_digits];
    [now rewrite Nat.add_0_r | ..];
    read_one_digit.
  - change (0 * 10 + 0)%N with 0%N. rewrite IHd. f_equal. lia.
  - change (0 * 10 + 1)%N with (N.pos 1). rewrite read_uint_acc. f_equal. lia.
  - change (0 * 10 + 2)%N with (N.pos 2). rewrite read_uint_acc. f_equal. lia.
  - change (0 * 10 + 3)%N with (N.pos 3). rewrite read_uint_acc. f_equal. lia.
  - change (0 * 10 + 4)%N with (N.pos 4). rewrite read_uint_acc. f_equal. lia.
  - change (0 * 10 + 5)%N with (N.pos 5). rewrite read_uint_acc. f_equal. lia.
  - change (0 * 10 + 6)%N with (N.pos 6). rewrite read_uint_acc. f_equal. lia.
  - change (0 * 10 + 7)%N with (N.pos 7). rewrite read_uint_acc. f_equal. lia.
  - change (0 * 10 + 8)%N with (N.pos 8). rewrite read_uint_acc. f_equal. lia.
  - change (0 * 10 + 9)%N with (N.pos 9). rewrite read_uint_acc. f_equal. lia.
Qed.

Lemma read_zeros j : forall acc cnt rest,
  read_digits 10 (zeros j ++ rest) acc cnt
  = read_digits 10 rest (acc * 10 ^ N.of_nat j)%N (cnt + j).
Proof.
  induction j as [|j IH]; intros acc cnt rest.
  - simpl zeros. simpl append. f_equal; [|lia].
    change (N.of_nat 0) with 0%N. rewrite N.pow_0_r. lia.
  - cbn [zeros append]. read_one_digit. rewrite IH. f_equal; [|lia].
    rewrite Nat2N.inj_succ, N.pow_succ_r'. lia.
Qed.

Lemma read_end acc cnt : read_digits 10 EmptyString acc cnt = (cnt, acc, EmptyString).
Proof. reflexivity. Qed.

Lemma of_uint_acc_lower d : forall acc,
  (N.pos acc * 10 ^ N.of_nat (Decimal.nb_digits d)
   <= N.pos (Pos.of_uint_acc d acc))%N.
Proof.
  induction d; intros acc; cbn [Pos.of_uint_acc Decimal.nb_digits];
    [change (N.of_nat 0) with 0%N; rewrite N.pow_0_r; lia | ..];
    rewrite Nat2N.inj_succ, N.pow_succ_r';
    (etransitivity; [|apply IHd]);
    (apply N.le_trans with (N.pos acc * 10 * 10 ^ N.of_nat (Decimal.nb_digits d))%N;
     [lia | apply N.mul_le_mono_r; lia]).
Qed.

Lemma nzhead_no_zero d :
  match Decimal.nzhead d with Decimal.D0 _ => False | _ => True end.
Proof. induction d; simpl; auto. Qed.

(** The numeral of a positive number starts with a non-zero digit. *)
Lemma to_uint_head m :
  (0 < m)%N ->
  match N.to_uint m with
  | Decimal.Nil | Decimal.D0 _ => False
  | _ => True
  end.
Proof.
  intros Hm.
  pose proof (DecimalN.Unsigned.to_of (N.to_uint m)) as H.
  rewrite DecimalN.Unsigned.of_to in H.
  pose proof (nzhead_no_zero (N.to_uint m)) as Hz.
  unfold Decimal.unorm in H.
  destruct (Decimal.nzhead (N.to_uint m)) eqn:E; rewrite H; try exact I.
  - rewrite H in E.
    pose proof (DecimalN.Unsigned.of_to m) as Ho. rewrite H in Ho.
    simpl in Ho. lia.
  - contradiction.
Qed.

Lemma digits_lower m :
  (0 < m)%N ->
  (10 ^ N.of_nat (Decimal.nb_digits (N.to_uint m) - 1) <= m)%N.
Proof.
  intros Hm. pose proof (to_uint_head m Hm) as Hh.
  pose proof (DecimalN.Unsigned.of_to m) as Ho. unfold N.of_uint in Ho.
  destruct (N.to_uint m) eqn:E; try contradiction;
    cbn [Pos.of_uint Decimal.nb_digits] in *;
    rewrite Nat.sub_succ, Nat.sub_0_r, <- Ho;
    (etransitivity; [|apply of_uint_acc_lower]);
    match goal with
    | |- (?a <= ?b * ?a)%N => replace a with (1 * a)%N at 1 by lia;
                               apply N.mul_le_mono_r; lia
    end.
Qed.

Lemma string_of_uint_length d :
  String.length (DecimalString.NilEmpty.string_of_uint d) = Decimal.nb_digits d.
Proof. induction d; simpl; congruence. Qed.

Lemma normalize_spec fuel : forall m e,
  (0 < m)%N ->
  (0 < fst (normalize fuel m e))%N
  /\ e <= snd (normalize fuel m e)
  /\ (fst (normalize fuel m e) * 10 ^ Z.to_N (snd (normalize fuel m e) - e) = m)%N.
Proof.
  induction fuel as [|fuel IH]; intros m e Hm; simpl.
  - replace (e - e) with 0 by lia. simpl. repeat split; lia.
  - destruct ((m mod 10 =? 0)%N && negb (m =? 0)%N) eqn:C; simpl.
    + apply andb_true_iff in C. destruct C as [C _]. apply N.eqb_eq in C.
      assert (Hd : (m = 10 * (m / 10))%N).
      { pose proof (N.div_mod m 10). lia. }
      assert (Hq : (0 < m / 10)%N) by lia.
      destruct (IH (m / 10)%N (e + 1) Hq) as (H1 & H2 & H3).
      repeat split; [exact H1 | lia |].
      replace (snd (normalize fuel (m / 10) (e + 1)) - e)
        with (Z.succ (snd (normalize fuel (m / 10) (e + 1)) - (e + 1))) by lia.
      rewrite Z2N.inj_succ by lia. rewrite N.pow_succ_r'. lia.
    + replace (e - e) with 0 by lia. simpl. repeat split; lia.
Qed.

(** A positive integer prints as its digits: the digits of what is left
    after the factors 10, then the zeros. *)
Lemma toString_int m :
  (0 < m < 10 ^ 21)%N ->
  exists s j,
    (0 < s)%N /\ (s * 10 ^ N.of_nat j = m)%N
    /\ toString_finite false m 0
       = DecimalString.NilEmpty.string_of_uint (N.to_uint s) ++ zeros j.
Proof.
  intros [Hm Hlt]. unfold toString_finite.
  destruct (N.eqb_spec m 0) as [->|_]; [lia|].
  pose proof (normalize_spec (N.to_nat (N.size m)) m 0 Hm) as (Hs & He & Hv).
  destruct (normalize (N.to_nat (N.size m)) m 0) as [s e']. simpl in Hs, He, Hv.
  exists s, (Z.to_nat e').
  assert (Hj : N.of_nat (Z.to_nat e') = Z.to_N (e' - 0)).
  { rewrite Z.sub_0_r. lia. }
  rewrite Hj. split; [exact Hs|]. split; [exact Hv|].
  unfold digits_of_N.
  pose proof (to_uint_head s Hs) as Hh.
  assert (Hd : DecimalString.NilZero.string_of_uint (N.to_uint s)
               = DecimalString.NilEmpty.string_of_uint (N.to_uint s)).
  { destruct (N.to_uint s); try contradiction; reflexivity. }
  rewrite Hd, string_of_uint_length.
  pose proof (digits_lower s Hs) as Hl.
  set (nb := Decimal.nb_digits (N.to_uint s)) in *.
  assert (Hnb : (1 <= nb)%nat).
  { unfold nb. destruct (N.to_uint s); try contradiction; simpl; lia. }
  assert (Hbound : (N.of_nat (nb - 1) + Z.to_N (e' - 0) < 21)%N).
  { apply (N.pow_lt_mono_r_iff 10); [lia|].
    eapply N.le_lt_trans; [|exact Hlt].
    rewrite N.pow_add_r, <- Hv. apply N.mul_le_mono_r. exact Hl. }
  assert (C1 : (Z.of_nat nb <=? Z.of_nat nb + e') = true) by (apply Z.leb_le; lia).
  assert (C2 : (Z.of_nat nb + e' <=? 21) = true) by (apply Z.leb_le; lia).
  rewrite C1, C2. simpl. f_equal. f_equal. lia.
Qed.

(** A safe integer is its own Number value. *)
Lemma to_binary64_safe v : (v < 2 ^ 53)%N -> to_binary64 v = Some v.
Proof.
  intros H. unfold to_binary64.
  apply N.ltb_lt in H. now rewrite H.
Qed.

(** [parseInt] reads such a digit string back. *)
Lemma parseInt_digits s j :
  (0 < s)%N -> (s * 10 ^ N.of_nat j < 2 ^ 53)%N ->
  parseInt (DecimalString.NilEmpty.string_of_uint (N.to_uint s) ++ zeros j)
  = Finite false (s * 10 ^ N.of_nat j) 0.
Proof.
  intros Hs Hsafe. pose proof (to_uint_head s Hs) as Hh.
  pose proof (DecimalN.Unsigned.of_to s) as Ho. unfold N.of_uint in Ho.
  assert (R : read_digits 10
                (DecimalString.NilEmpty.string_of_uint (N.to_uint s) ++ zeros j)
                0%N 0%nat
              = ((Decimal.nb_digits (N.to_uint s) + j)%nat,
                 (s * 10 ^ N.of_nat j)%N, EmptyString)).
  { rewrite <- (append_nil_r (zeros j)), read_uint, read_zeros, read_end, Ho.
    reflexivity. }
  destruct (N.to_uint s) eqn:E; try contradiction;
    cbn [DecimalString.NilEmpty.string_of_uint append Decimal.nb_digits] in *;
    unfold parseInt; cbn [trimStart]; 
    (match goal with
     | |- context [is_space ?c] => change (is_space c) with false
     end); cbn [read_sign]; cbv beta iota; rewrite R;
    cbv beta iota; rewrite (to_binary64_safe _ Hsafe); reflexivity.
Qed.

Lemma safe_is_short m : (m < 2 ^ 53)%N -> (m < 10 ^ 21)%N.
Proof. intros H. eapply N.lt_trans; [exact H | reflexivity]. Qed.

(** The text of a positive safe integer is read back as that integer. *)
Lemma parseInt_toString m :
  (0 < m < 2 ^ 53)%N ->
  parseInt (toString_finite false m 0) = Finite false m 0.
Proof.
  intros [Hpos Hm].
  destruct (toString_int m (conj Hpos (safe_is_short m Hm)))
    as (s & j & Hs & Hv & ->).
  rewrite (parseInt_digits s j Hs) by now rewrite Hv.
  now rewrite Hv.
Qed.

Lemma digits_no_char c d :
  digit_val 10 c = None ->
  has_char c (DecimalString.NilEmpty.string_of_uint d) = false.
Proof.
  intros Hc.
  induction d; cbn [DecimalString.NilEmpty.string_of_uint has_char];
    [reflexivity | ..]; rewrite IHd, orb_false_r;
    match goal with
    | |- Ascii.eqb ?a c = false =>
        destruct (Ascii.eqb_spec a c) as [<-|];
        [vm_compute in Hc; discriminate | reflexivity]
    end.
Qed.

Lemma zeros_no_char c j :
  digit_val 10 c = None -> has_char c (zeros j) = false.
Proof.
  intros Hc. induction j as [|j IH]; cbn [zeros has_char]; [reflexivity|].
  rewrite IH, orb_false_r.
  destruct (Ascii.eqb_spec "0" c) as [<-|];
    [vm_compute in Hc; discriminate | reflexivity].
Qed.

(** The text of a positive integer holds digits only and is not empty. *)
Lemma toString_no_char c m :
  (0 < m < 10 ^ 21)%N -> digit_val 10 c = None ->
  has_char c (toString_finite false m 0) = false.
Proof.
  intros Hm Hc. destruct (toString_int m Hm) as (s & j & _ & _ & ->).
  now rewrite has_char_app, digits_no_char, zeros_no_char.
Qed.

Lemma toString_nonempty m :
  (0 < m < 10 ^ 21)%N -> nonempty (toString_finite false m 0) = true.
Proof.
  intros Hm. destruct (toString_int m Hm) as (s & j & Hs & _ & ->).
  pose proof (to_uint_head s Hs). now destruct (N.to_uint s).
Qed.

End NumberFacts.

(** ** The URLs the site builds, read by the worker *)

Module SiteFacts.

Import JS ImageWorker Spec More Site ParserFacts StringFacts ParserMore
       NumberFacts.

Lemma split_join c l :
  l <> [] ->
  (forall p, In p l -> has_char c p = false) ->
  split c (join (String c EmptyString) l) = l.
Proof.
  induction l as [|x l IH]; intros Hne Hall; [contradiction|].
  destruct l as [|y r].
  - simpl. apply split_none, Hall. now left.
  - change (join (String c EmptyString) (x :: y :: r))
      with (x ++ String c (join (String c EmptyString) (y :: r))).
    rewrite split_app, (split_none c x) by (apply Hall; now left).
    rewrite IH; [reflexivity | discriminate |].
    intros p Hp. apply Hall. now right.
Qed.

Lemma has_char_join c sep l :
  has_char c sep = false ->
  (forall p, In p l -> has_char c p = false) ->
  has_char c (join sep l) = false.
Proof.
  intros Hs. induction l as [|x l IH]; intros Hall; [reflexivity|].
  destruct l as [|y r].
  - apply Hall. now left.
  - change (join sep (x :: y :: r)) with (x ++ sep ++ join sep (y :: r)).
    rewrite !has_char_app, Hs, (Hall x) by now left.
    rewrite IH; [reflexivity|]. intros p Hp. apply Hall. now right.
Qed.

(** The pairs of a joined list are the list. *)
Lemma transformPairs_join l :
  l <> [] ->
  (forall p, In p l -> has_char "," p = false /\ nonempty p = true) ->
  transformPairs (join "," l) = l.
Proof.
  intros Hne Hall. unfold transformPairs.
  rewrite split_join; [|exact Hne | intros p Hp; now apply Hall].
  clear Hne. induction l as [|x l IH]; [reflexivity|]. simpl.
  rewrite (proj2 (Hall x (or_introl eq_refl))). f_equal.
  apply IH. intros p Hp. apply Hall. now right.
Qed.

(** What a safe positive option is. *)
Lemma safe_positive_inv n :
  safe_positive (Some n) = true ->
  exists p, n = Finite false (N.pos p) 0 /\ (0 < N.pos p < 2 ^ 53)%N.
Proof.
  destruct n as [|neg|neg m e]; try discriminate.
  destruct neg; [discriminate|]. destruct e; try discriminate.
  simpl. intros H. apply andb_true_iff in H. destruct H as [H1 H2].
  apply N.ltb_lt in H1, H2. destruct m as [|p]; [lia|].
  exists p. split; [reflexivity|]. split; [lia | exact H2].
Qed.

Lemma safe_short p :
  (0 < N.pos p < 2 ^ 53)%N -> (0 < N.pos p < 10 ^ 21)%N.
Proof. intros [H1 H2]. split; [exact H1 | now apply safe_is_short]. Qed.

(** A pair [key=<text of a safe number>] under a key read by [parseInt]
    stores that number. *)
Lemma applyPair_text o key f p :
  has_char "=" key = false -> nonempty key = true ->
  (forall v, assignment key v = Some (f, VNum (parseInt v))) ->
  (0 < N.pos p < 2 ^ 53)%N ->
  applyPair o (key ++ "=" ++ text (Finite false (N.pos p) 0))
  = set f (VNum (Finite false (N.pos p) 0)) o.
Proof.
  intros Hk Hn Ha Hp. unfold applyPair.
  change (key ++ "=" ++ text (Finite false (N.pos p) 0))
    with (key ++ String "=" (toString_finite false (N.pos p) 0)).
  rewrite (key_value_keyed _ _ Hk).
  rewrite (split_none "=") by (apply toString_no_char; [now apply safe_short | reflexivity]).
  rewrite Hn, (toString_nonempty _ (safe_short p Hp)), Ha. simpl.
  now rewrite parseInt_toString.
Qed.

Lemma text_clean c p :
  (0 < N.pos p < 2 ^ 53)%N -> digit_val 10 c = None ->
  has_char c (text (Finite false (N.pos p) 0)) = false.
Proof. intros Hp Hc. apply toString_no_char; [now apply safe_short | exact Hc]. Qed.

Ltac safe_option H n p Hp :=
  apply safe_positive_inv in H; destruct H as (p & -> & Hp).

Ltac unfold_params :=
  cbv [urlParams push_number push_fit opt_width opt_height opt_quality opt_fit
       number_truthy N.eqb negb written].

Ltac pair_facts :=
  repeat split; rewrite ?has_char_app;
  repeat match goal with
         | |- context [has_char ?c (text (Finite false (N.pos ?p) 0))] =>
             rewrite (text_clean c p) by (assumption || reflexivity)
         end; try reflexivity.

Lemma fit_pair o f :
  applyPair o ("fit=" ++ fitName f) = set "fit" (VStr (fitName f)) o.
Proof. destruct f; reflexivity. Qed.

Lemma fitName_clean c f :
  In c ["," ; "/"; "="]%char -> has_char c (fitName f) = false.
Proof.
  intros [<-|[<-|[<-|[]]]]; destruct f; reflexivity.
Qed.

(** The options [getImageUrl] writes, as pairs and as a directive. *)
Lemma urlParams_read options :
  safe_positive (opt_width options) = true ->
  safe_positive (opt_height options) = true ->
  safe_positive (opt_quality options) = true ->
  transformPairs (join "," (urlParams options)) = urlParams options
  /\ fold_left applyPair (urlParams options) [] = written options
  /\ has_char "/" (join "," (urlParams options)) = false.
Proof.
  destruct options as [w h q f]. cbn [opt_width opt_height opt_quality].
  intros Hw Hh Hq.
  assert (Each : forall p, In p (urlParams (Build_UrlOptions w h q f)) ->
                 has_char "," p = false /\ nonempty p = true
                 /\ has_char "/" p = false).
  { destruct w as [w|]; [safe_option Hw w pw Pw|];
      (destruct h as [h|]; [safe_option Hh h ph Ph|]);
      (destruct q as [q|]; [safe_option Hq q pq Pq|]);
      destruct f as [f|]; unfold_params; cbn [app];
      intros p Hp; cbn [In] in Hp;
      repeat (destruct Hp as [<-|Hp]; [pair_facts|]);
      try contradiction;
      try (destruct f; repeat split; reflexivity). }
  split; [|split].
  - apply transformPairs_join.
    + destruct w as [[]|]; try discriminate;
        destruct h as [[]|]; destruct q as [[]|]; destruct f;
        cbv [urlParams push_number push_fit opt_width opt_height opt_quality
             opt_fit]; repeat match goal with
                              | |- context [if ?c then _ else _] => destruct c
                              end; cbn [app]; discriminate.
    + intros p Hp. destruct (Each p Hp) as (H1 & H2 & _). now split.
  - clear Each.
    destruct w as [w|]; [safe_option Hw w pw Pw|];
      (destruct h as [h|]; [safe_option Hh h ph Ph|]);
      (destruct q as [q|]; [safe_option Hq q pq Pq|]);
      destruct f as [f|]; unfold_params;
      rewrite ?fold_left_app; cbn [fold_left];
      rewrite ?fit_pair;
      rewrite ?(applyPair_text _ "quality" "quality") by (assumption || reflexivity);
      rewrite ?(applyPair_text _ "height" "height") by (assumption || reflexivity);
      rewrite ?(applyPair_text _ "width" "width") by (assumption || reflexivity);
      reflexivity.
  - apply has_char_join; [reflexivity|].
    intros p Hp. now apply Each.
Qed.

Ltac other_keys k :=
  cbn [get];
  repeat match goal with
         | |- context [String.eqb k ?s] =>
             destruct (String.eqb_spec k s) as [->|?];
             [exfalso; simpl in *; tauto|]
         end; try reflexivity.

(** X8.  The image URLs of the site are understood by the worker.  For a
    file name and options whose width, height and quality are absent or
    positive integers below 2^53, the URL of [getImageUrl] is the base
    URL, [/cdn-cgi/image/], one slash-free option string, a slash and the
    file name; and the worker's parser reads from that option string
    exactly the width and height given (unset when absent), the quality
    given (85 when absent), the fit given ([scale-down] when absent) and
    the format [auto].  Nothing else is set: [onerror=redirect] leaves no
    trace.  Without options the URL asks for [format=auto,quality=85],
    which gives every field the value an empty option string gives. *)
Theorem getImageUrl_is_understood fileName :
  (getImageUrl fileName None
   = baseUrl ++ "/cdn-cgi/image/" ++ "format=auto,quality=85" ++ "/" ++ fileName
   /\ forall k, get k (parsePath "format=auto,quality=85")
                = get k (parsePath EmptyString))
  /\ forall options,
      safe_positive (opt_width options) = true ->
      safe_positive (opt_height options) = true ->
      safe_positive (opt_quality options) = true ->
      exists opts,
        getImageUrl fileName (Some options)
        = baseUrl ++ "/cdn-cgi/image/" ++ opts ++ "/" ++ fileName
        /\ has_char "/" opts = false
        /\ width (parsePath opts) = option_map VNum (opt_width options)
        /\ height (parsePath opts) = option_map VNum (opt_height options)
        /\ quality (parsePath opts)
           = Some (VNum (match opt_quality options with
                         | Some q => q
                         | None => of_Z 85
                         end))
        /\ fit (parsePath opts)
           = Some (VStr (match opt_fit options with
                         | Some f => fitName f
                         | None => "scale-down"
                         end))
        /\ format (parsePath opts) = Some (VStr "auto")
        /\ (forall k, ~ In k ["width"; "height"; "quality"; "fit"; "format"] ->
                      get k (parsePath opts) = None).
Proof.
  split.
  { split; [reflexivity|]. intros k.
    change (parsePath "format=auto,quality=85")
      with [("format", VStr "auto"); ("quality", VNum (of_Z 85));
            ("fit", VStr "scale-down")].
    change (parsePath EmptyString)
      with [("quality", VNum (of_Z 85)); ("format", VStr "auto");
            ("fit", VStr "scale-down")].
    cbn [get].
    destruct (String.eqb_spec k "format") as [->|]; [reflexivity|].
    destruct (String.eqb_spec k "quality") as [->|]; reflexivity. }
  intros options Hw Hh Hq.
  exists (join "," (urlParams options)).
  destruct (urlParams_read options Hw Hh Hq) as (Hpairs & Hfold & Hslash).
  split; [reflexivity|]. split; [exact Hslash|].
  rewrite parsePath_unfold, Hpairs, Hfold. clear Hpairs Hfold Hslash.
  destruct options as [w h q f]. cbn [opt_width opt_height opt_quality opt_fit] in *.
  destruct w as [w|]; [safe_option Hw w pw Pw|];
    (destruct h as [h|]; [safe_option Hh h ph Ph|]);
    (destruct q as [q|]; [safe_option Hq q pq Pq|]);
    destruct f as [[]|];
    (repeat split; try reflexivity; intros k Hk;
     match goal with
     | |- get k ?o = None =>
         let o' := eval vm_compute in o in change o with o'
     end;
     other_keys k).
Qed.

Lemma getImageUrl_is_understood_witness :
  exists opts,
    getImageUrl "harbour.jpg"
      (Some {| opt_width := Some (of_Z 640); opt_height := None;
               opt_quality := Some (of_Z 65); opt_fit := Some Cover |})
    = baseUrl ++ "/cdn-cgi/image/" ++ opts ++ "/" ++ "harbour.jpg"
    /\ has_char "/" opts = false
    /\ width (parsePath opts) = Some (VNum (of_Z 640))
    /\ height (parsePath opts) = None
    /\ quality (parsePath opts) = Some (VNum (of_Z 65))
    /\ fit (parsePath opts) = Some (VStr "cover")
    /\ format (parsePath opts) = Some (VStr "auto")
    /\ (forall k, ~ In k ["width"; "height"; "quality"; "fit"; "format"] ->
                  get k (parsePath opts) = None).
Proof.
  exact (proj2 (getImageUrl_is_understood "harbour.jpg")
           {| opt_width := Some (of_Z 640); opt_height := None;
              opt_quality := Some (of_Z 65); opt_fit := Some Cover |}
           eq_refl eq_refl eq_refl).
Defined.

Lemma responsiveParams_join options w :
  responsiveParams options w
  = join "," ["format=auto"; "quality" ++ "=" ++ text (defaultQuality options);
              "fit=" ++ chosenFit options; "width" ++ "=" ++ text w].
Proof.
  unfold responsiveParams. cbn [join]. simpl. now rewrite ?append_assoc.
Qed.

Lemma chosenFit_name options : exists f, chosenFit options = fitName f.
Proof.
  destruct options as [[q [f|]]|]; simpl; eauto; now exists ScaleDown.
Qed.

(** The option string written for a width, read by the parser. *)
Lemma responsiveParams_read options w :
  safe_positive (Some (defaultQuality options)) = true ->
  safe_positive (Some w) = true ->
  width (parsePath (responsiveParams options w)) = Some (VNum w)
  /\ quality (parsePath (responsiveParams options w))
     = Some (VNum (defaultQuality options))
  /\ fit (parsePath (responsiveParams options w))
     = Some (VStr (chosenFit options))
  /\ format (parsePath (responsiveParams options w)) = Some (VStr "auto")
  /\ has_char "/" (responsiveParams options w) = false
  /\ includes "width=auto" (responsiveParams options w) = false
  /\ (forall fileName,
        src (getResponsiveImageUrls fileName options)
        = baseUrl ++ "/cdn-cgi/image/" ++ responsiveParams options (of_Z 960)
          ++ "/" ++ fileName)
  /\ safe_positive (Some (of_Z 960)) = true
  /\ forallb (fun x => safe_positive (Some x)) widths = true.
Proof.
  intros Hq Hw.
  destruct (chosenFit_name options) as [f Hf].
  apply safe_positive_inv in Hq. destruct Hq as (pq & Eq & Pq).
  apply safe_positive_inv in Hw. destruct Hw as (pw & -> & Pw).
  assert (Each : forall p,
            In p ["format=auto"; "quality" ++ "=" ++ text (Finite false (N.pos pq) 0);
                  "fit=" ++ fitName f;
                  "width" ++ "=" ++ text (Finite false (N.pos pw) 0)] ->
            has_char "," p = false /\ nonempty p = true
            /\ has_char "/" p = false).
  { intros p Hp. cbn [In] in Hp.
    repeat (destruct Hp as [<-|Hp]; [pair_facts|]); try contradiction;
      destruct f; reflexivity. }
  assert (Read : parsePath (responsiveParams options (Finite false (N.pos pw) 0))
                 = applyDefaults
                     [("format", VStr "auto");
                      ("quality", VNum (Finite false (N.pos pq) 0));
                      ("fit", VStr (fitName f));
                      ("width", VNum (Finite false (N.pos pw) 0))]).
  { rewrite responsiveParams_join, Eq, Hf.
    rewrite parsePath_unfold, transformPairs_join;
      [|discriminate
       | intros p Hp; destruct (Each p Hp) as (H1 & H2 & _); now split].
    cbn [fold_left].
    rewrite (applyPair_text _ "width" "width") by (assumption || reflexivity).
    rewrite fit_pair.
    rewrite (applyPair_text _ "quality" "quality") by (assumption || reflexivity).
    reflexivity. }
  rewrite Read, Eq, Hf.
  do 4 (split; [destruct f; reflexivity|]).
  rewrite responsiveParams_join, Eq, Hf.
  split; [|split; [|repeat split; reflexivity]].
  - apply has_char_join; [reflexivity|]. intros p Hp. now apply Each.
  - match goal with |- ?b = false => destruct b eqn:E; [|reflexivity] end.
    apply includes_join in E; [|reflexivity].
    destruct E as [E|(p & Hp & Hi)]; [discriminate|].
    cbn [In] in Hp.
    destruct Hp as [<-|[<-|[<-|[<-|[]]]]].
    + discriminate.
    + rewrite number_pair_no_auto in Hi;
        [discriminate | simpl; tauto | now apply text_clean..].
    + destruct f; discriminate.
    + rewrite number_pair_no_auto in Hi;
        [discriminate | simpl; tauto | now apply text_clean..].
Qed.

(** X9.  The candidates of [getResponsiveImageUrls] are understood by the
    worker.  When the quality is absent, zero, NaN or a positive integer
    below 2^53, [srcset] is a list of five candidates, one for each of
    the widths 320, 640, 960, 1280 and 2560, separated by a comma and a
    space.  A candidate is the base URL, [/cdn-cgi/image/], an option
    string, a slash, the file name, a space and the width with the
    letter [w]; [src] is the address of the candidate of width 960.  The
    option string of each candidate is slash-free, holds no [width=auto],
    and is read by the worker's parser as the width of the candidate,
    the chosen quality (85 unless a non-zero one is given), the chosen
    fit ([scale-down] unless one is given) and the format [auto]. *)
Theorem responsive_urls_are_understood fileName options :
  safe_positive (Some (defaultQuality options)) = true ->
  exists opts : number -> string,
    srcset (getResponsiveImageUrls fileName options)
    = join ", "
        (map (fun w => baseUrl ++ "/cdn-cgi/image/" ++ opts w ++ "/" ++ fileName
                       ++ " " ++ text w ++ "w")
             [of_Z 320; of_Z 640; of_Z 960; of_Z 1280; of_Z 2560])
    /\ src (getResponsiveImageUrls fileName options)
       = baseUrl ++ "/cdn-cgi/image/" ++ opts (of_Z 960) ++ "/" ++ fileName
    /\ forall w,
         In w [of_Z 320; of_Z 640; of_Z 960; of_Z 1280; of_Z 2560] ->
         has_char "/" (opts w) = false
         /\ includes "width=auto" (opts w) = false
         /\ width (parsePath (opts w)) = Some (VNum w)
         /\ quality (parsePath (opts w)) = Some (VNum (defaultQuality options))
         /\ fit (parsePath (opts w)) = Some (VStr (chosenFit options))
         /\ format (parsePath (opts w)) = Some (VStr "auto").
Proof.
  intros Hq. exists (responsiveParams options).
  split; [reflexivity|]. split; [reflexivity|].
  intros w Hw.
  assert (Sw : safe_positive (Some w) = true).
  { cbn [In] in Hw. destruct Hw as [<-|[<-|[<-|[<-|[<-|[]]]]]]; reflexivity. }
  destruct (responsiveParams_read options w Hq Sw)
    as (H1 & H2 & H3 & H4 & H5 & H6 & _).
  repeat split; assumption.
Qed.

Lemma responsive_urls_are_understood_witness :
  exists opts : number -> string,
    srcset (getResponsiveImageUrls "harbour.jpg"
              (Some {| ropt_quality := Some (of_Z 0); ropt_fit := Some Contain |}))
    = join ", "
        (map (fun w => baseUrl ++ "/cdn-cgi/image/" ++ opts w ++ "/" ++ "harbour.jpg"
                       ++ " " ++ text w ++ "w")
             [of_Z 320; of_Z 640; of_Z 960; of_Z 1280; of_Z 2560])
    /\ src (getResponsiveImageUrls "harbour.jpg"
              (Some {| ropt_quality := Some (of_Z 0); ropt_fit := Some Contain |}))
       = baseUrl ++ "/cdn-cgi/image/" ++ opts (of_Z 960) ++ "/" ++ "harbour.jpg"
    /\ forall w,
         In w [of_Z 320; of_Z 640; of_Z 960; of_Z 1280; of_Z 2560] ->
         has_char "/" (opts w) = false
         /\ includes "width=auto" (opts w) = false
         /\ width (parsePath (opts w)) = Some (VNum w)
         /\ quality (parsePath (opts w)) = Some (VNum (of_Z 85))
         /\ fit (parsePath (opts w)) = Some (VStr "contain")
         /\ format (parsePath (opts w)) = Some (VStr "auto").
Proof.
  exact (responsive_urls_are_understood "harbour.jpg"
           (Some {| ropt_quality := Some (of_Z 0); ropt_fit := Some Contain |})
           eq_refl).
Defined.

(** X10.  The image component offers, for each of its breakpoints, a
    candidate whose width descriptor is the width the worker reads from
    the candidate's option string, with the quality and fit of the
    variant (75 and [contain] for the detail view, 65 and [cover] for a
    thumbnail) and without [width=auto]; its [src] is the candidate of
    the breakpoint 1200, resp. 640. *)
Theorem ResponsiveImage_candidates fileName alt className variant :
  let quality_of := match variant with Detail => 75 | Thumbnail => 65 end in
  let fit_of := match variant with Detail => "contain" | Thumbnail => "cover" end in
  let opts w := join "," (urlParams (variantOptions variant w)) in
  let candidate w :=
    baseUrl ++ "/cdn-cgi/image/" ++ opts w ++ "/" ++ fileName in
  img_srcSet (ResponsiveImage fileName alt className variant)
  = join ", " (map (fun w => candidate w ++ " " ++ text w ++ "w") BREAKPOINTS)
  /\ img_src (ResponsiveImage fileName alt className variant)
     = candidate (match variant with Detail => of_Z 1200 | Thumbnail => of_Z 640 end)
  /\ forall w, In w BREAKPOINTS ->
       has_char "/" (opts w) = false
       /\ includes "width=auto" (opts w) = false
       /\ width (parsePath (opts w)) = Some (VNum w)
       /\ quality (parsePath (opts w)) = Some (VNum (of_Z quality_of))
       /\ fit (parsePath (opts w)) = Some (VStr fit_of)
       /\ format (parsePath (opts w)) = Some (VStr "auto").
Proof.
  intros quality_of fit_of opts candidate.
  split; [reflexivity|]. split; [now destruct variant|].
  intros w Hw. unfold opts, quality_of, fit_of.
  cbn [BREAKPOINTS In] in Hw.
  destruct variant;
    repeat (destruct Hw as [<-|Hw]; [repeat split; vm_compute; reflexivity|]);
    contradiction.
Qed.

Lemma ResponsiveImage_candidates_witness :
  width (parsePath (join "," (urlParams (variantOptions Thumbnail (of_Z 828)))))
  = Some (VNum (of_Z 828))
  /\ quality (parsePath (join "," (urlParams (variantOptions Thumbnail (of_Z 828)))))
     = Some (VNum (of_Z 65)).
Proof.
  pose proof (proj2 (proj2 (ResponsiveImage_candidates "a.jpg" "a" "c" Thumbnail))
                (of_Z 828)) as H.
  destruct H as (_ & _ & Hw & Hq & _).
  - simpl. do 2 right. left. reflexivity.
  - exact (conj Hw Hq).
Defined.

End SiteFacts.

(** * The info endpoint *)

Module InfoFacts.

Import JS ImageWorker Spec Info HandlerFacts.


End InfoFacts.

(** * The pages of the site *)

Module PagesFacts.

Import JS More Site Pages StringFacts.

(** A key with one hyphen splits at it in one way only. *)
Lemma hyphen_split a b s1 s2 :
  has_char "-" a = false ->
  has_char "-" b = false ->
  s1 ++ "-" ++ s2 = a ++ "-" ++ b ->
  s1 = a /\ s2 = b.
Proof.
  intros Ha Hb. revert a Ha.
  induction s1 as [|c s1 IH]; intros [|d a] Ha E; simpl in *.
  - now injection E.
  - injection E as <- _. discriminate.
  - injection E as -> E. rewrite <- E, has_char_app in Hb.
    apply orb_false_iff in Hb. destruct Hb as [_ Hb]. discriminate.
  - injection E as -> E.
    apply orb_false_iff in Ha. destruct Ha as [_ Ha].
    destruct (IH a Ha E) as [-> ->]. now split.
Qed.

Section DataFacts.

Variables paintingsCurrentData paintingsEarlyData
          drawingsCurrentData drawingsEarlyData : PageDataFile.
Variable artworksData : string -> option Artwork.

#[local] Abbreviation page_of :=
  (pageDataMap paintingsCurrentData paintingsEarlyData
               drawingsCurrentData drawingsEarlyData).
#[local] Abbreviation load :=
  (loadPageData paintingsCurrentData paintingsEarlyData
                drawingsCurrentData drawingsEarlyData artworksData).

Lemma valid_pairs slug period :
  isValidSlugPeriod slug period = true
  <-> (slug = "paintings" \/ slug = "drawings")
      /\ (period = "current" \/ period = "early").
Proof.
  unfold isValidSlugPeriod. simpl. rewrite andb_true_iff, !orb_true_iff.
  rewrite !String.eqb_eq. intuition congruence.
Qed.

Lemma pageDataMap_defined slug period :
  defined (page_of (slug ++ "-" ++ period)) = isValidSlugPeriod slug period.
Proof.
  destruct (isValidSlugPeriod slug period) eqn:V.
  - apply valid_pairs in V. destruct V as [[-> | ->] [-> | ->]]; reflexivity.
  - unfold pageDataMap.
    repeat match goal with
           | |- context [String.eqb ?k ?lit] =>
               destruct (String.eqb_spec k lit) as [E|_];
               [exfalso; revert V; apply not_false_iff_true, valid_pairs|]
           end;
      try reflexivity.
    + change "paintings-current" with ("paintings" ++ "-" ++ "current") in E.
      apply hyphen_split in E; [|reflexivity..]. destruct E; auto.
    + change "paintings-early" with ("paintings" ++ "-" ++ "early") in E.
      apply hyphen_split in E; [|reflexivity..]. destruct E; auto.
    + change "drawings-current" with ("drawings" ++ "-" ++ "current") in E.
      apply hyphen_split in E; [|reflexivity..]. destruct E; auto.
    + change "drawings-early" with ("drawings" ++ "-" ++ "early") in E.
      apply hyphen_split in E; [|reflexivity..]. destruct E; auto.
Qed.

Lemma loadPageData_defined slug period :
  defined (load slug period) = isValidSlugPeriod slug period.
Proof.
  rewrite <- pageDataMap_defined. unfold loadPageData.
  now destruct (page_of (slug ++ "-" ++ period)).
Qed.

(** The artworks of a loaded page are those the artworks file holds under
    the ids of the page file. *)
Lemma loadPageData_artworks slug period page a :
  load slug period = Some page ->
  In a (artworks page)
  <-> exists data artworkId,
        page_of (slug ++ "-" ++ period) = Some data
        /\ In artworkId (file_artworks data)
        /\ artworksData (text artworkId) = Some a.
Proof.
  unfold loadPageData.
  destruct (page_of (slug ++ "-" ++ period)) as [data|]; [|discriminate].
  intros [= <-]. cbn [artworks]. rewrite in_flat_map. split.
  - intros ([x|] & Hx & Ha); [|destruct Ha].
    destruct Ha as [->|[]]. apply filter_In in Hx. destruct Hx as [Hx _].
    apply in_map_iff in Hx. destruct Hx as (n & Hn & Hin).
    exists data, n. auto.
  - intros (d & n & [= <-] & Hin & Hn). exists (Some a). split; [|now left].
    apply filter_In. split; [|reflexivity].
    apply in_map_iff. exists n. auto.
Qed.

(** X13.  A page is loaded exactly for the four valid pairs of slug and
    period, whatever the data files hold: the home page is never
    missing, and a collection page is missing exactly when the pair is
    not valid, so the second test of the route never fires. *)
Theorem pages_exist_iff_valid slug period :
  (loadPageData paintingsCurrentData paintingsEarlyData
     drawingsCurrentData drawingsEarlyData artworksData slug period = None
   <-> isValidSlugPeriod slug period = false)
  /\ (collectionPage paintingsCurrentData paintingsEarlyData
        drawingsCurrentData drawingsEarlyData artworksData slug period
      = NotFound
      <-> isValidSlugPeriod slug period = false)
  /\ home paintingsCurrentData paintingsEarlyData
        drawingsCurrentData drawingsEarlyData artworksData <> NotFound
  /\ (isValidSlugPeriod slug period = true
      <-> In slug ["paintings"; "drawings"] /\ In period ["current"; "early"]).
Proof.
  pose proof (loadPageData_defined slug period) as D.
  pose proof (loadPageData_defined "paintings" "current") as H.
  unfold collectionPage, home.
  split; [|split; [|split]].
  - destruct (load slug period); simpl in D; rewrite <- D;
      split; congruence.
  - destruct (isValidSlugPeriod slug period); simpl.
    + destruct (load slug period); [split; discriminate | discriminate].
    + tauto.
  - destruct (load "paintings" "current"); [discriminate|].
    discriminate.
  - rewrite valid_pairs. simpl. intuition congruence.
Qed.

Lemma strict_equal_refl x : x <> NaN -> strict_equal x x = true.
Proof.
  destruct x as [|n|n m e]; [congruence | intros _ | intros _]; simpl.
  - now destruct n.
  - destruct (m =? 0)%N eqn:E; [reflexivity|].
    rewrite Bool.eqb_reflx, N.eqb_refl. reflexivity.
Qed.

Lemma filter_drops {A} (f : A -> bool) l x :
  In x l -> f x = false -> (length (filter f l) < length l)%nat.
Proof.
  induction l as [|y l IH]; simpl; [tauto|]. intros [->|Hin] Hx.
  - rewrite Hx. pose proof (filter_length_le f l). lia.
  - specialize (IH Hin Hx). destruct (f y); simpl; lia.
Qed.

(** The patterns of the route accept the valid pairs. *)
Lemma patterns_valid slug period :
  matches_slug slug && matches_period period = isValidSlugPeriod slug period.
Proof.
  unfold matches_slug, matches_period, isValidSlugPeriod. simpl.
  destruct (String.eqb slug "paintings"), (String.eqb slug "drawings"),
           (String.eqb period "current"), (String.eqb period "early");
    reflexivity.
Qed.

(** The route is its handler on the addresses whose last segment is
    written in digits, and the [notFound] handler on the others. *)
Lemma artworkPage_handler slug period artworkId :
  artworkPage paintingsCurrentData paintingsEarlyData
    drawingsCurrentData drawingsEarlyData artworksData slug period artworkId
  = if matches_id artworkId
    then artworkHandler paintingsCurrentData paintingsEarlyData
           drawingsCurrentData drawingsEarlyData artworksData
           slug period artworkId
    else NotFound.
Proof.
  unfold artworkPage. rewrite patterns_valid.
  destruct (matches_id artworkId); [|now rewrite andb_false_r].
  rewrite andb_true_r. unfold artworkHandler.
  now destruct (isValidSlugPeriod slug period).
Qed.

(** What the handler of the artwork route shows. *)
Lemma artworkHandler_views slug period artworkId :
  let view :=
    artworkHandler paintingsCurrentData paintingsEarlyData
      drawingsCurrentData drawingsEarlyData artworksData
      slug period artworkId in
  (view <> NotFound
   <-> isValidSlugPeriod slug period = true
       /\ exists artwork page a,
            artworksData artworkId = Some artwork
            /\ loadPageData paintingsCurrentData paintingsEarlyData
                 drawingsCurrentData drawingsEarlyData artworksData
                 slug period = Some page
            /\ In a (artworks page)
            /\ strict_equal (art_id a) (art_id artwork) = true)
  /\ forall artwork page others,
       view = ArtworkDetail artwork page others ->
       artworksData artworkId = Some artwork
       /\ loadPageData paintingsCurrentData paintingsEarlyData
            drawingsCurrentData drawingsEarlyData artworksData
            slug period = Some page
       /\ others
          = filter (fun a => negb (strict_equal (art_id a) (art_id artwork)))
                   (artworks page)
       /\ (forall a, In a others ->
                     strict_equal (art_id a) (art_id artwork) = false)
       /\ (length others < length (artworks page))%nat
       /\ (forall a, In a others ->
            exists data n,
              pageDataMap paintingsCurrentData paintingsEarlyData
                drawingsCurrentData drawingsEarlyData
                (slug ++ "-" ++ period) = Some data
              /\ In n (file_artworks data)
              /\ artworksData (text n) = Some a).
Proof.
  intros view. subst view. unfold artworkHandler, loadArtwork.
  pose proof (loadPageData_defined slug period) as D.
  destruct (isValidSlugPeriod slug period); simpl.
  2:{ split; [split; [congruence | intros [? _]; discriminate] | discriminate]. }
  destruct (load slug period) as [page|] eqn:L; [clear D | discriminate].
  destruct (artworksData artworkId) as [artwork|].
  2:{ split; [|discriminate]. split; [congruence|].
      intros (_ & ? & ? & ? & ? & _). discriminate. }
  destruct (find _ (artworks page)) as [a|] eqn:F.
  - apply find_some in F. destruct F as [Hin Ha]. split.
    + split; [|discriminate]. intros _. split; [reflexivity|].
      now exists artwork, page, a.
    + intros artwork' page' others [= <- <- <-].
      do 3 (split; [reflexivity|]). split; [|split].
      * intros x Hx. apply filter_In in Hx. destruct Hx as [_ Hx].
        now apply negb_true_iff in Hx.
      * apply (filter_drops _ _ a Hin). now rewrite Ha.
      * intros x Hx. apply filter_In in Hx. destruct Hx as [Hx _].
        now apply (loadPageData_artworks slug period page x L).
  - split; [|discriminate]. split; [congruence|].
    intros (_ & artwork' & page' & a & [= <-] & [= <-] & Hin & Ha).
    now rewrite (find_none _ _ F a Hin) in Ha.
Qed.

(** X14.  The artwork page.  The address [/slug/period/artworkId] is
    missing unless its last segment is written in digits, the pair is
    valid, the artworks file holds an artwork under that id, and the
    page lists an artwork with the same [id] field.  When it is shown,
    the other artworks are the artworks of the page with another id, in
    their order: the artwork shown is never among them, they are fewer
    than the page's artworks, and each of them is held by the artworks
    file under an id the page file names. *)
Theorem artwork_page_views slug period artworkId :
  let view :=
    artworkPage paintingsCurrentData paintingsEarlyData
      drawingsCurrentData drawingsEarlyData artworksData
      slug period artworkId in
  (view <> NotFound
   <-> matches_id artworkId = true
       /\ isValidSlugPeriod slug period = true
       /\ exists artwork page a,
            artworksData artworkId = Some artwork
            /\ loadPageData paintingsCurrentData paintingsEarlyData
                 drawingsCurrentData drawingsEarlyData artworksData
                 slug period = Some page
            /\ In a (artworks page)
            /\ strict_equal (art_id a) (art_id artwork) = true)
  /\ forall artwork page others,
       view = ArtworkDetail artwork page others ->
       matches_id artworkId = true
       /\ artworksData artworkId = Some artwork
       /\ loadPageData paintingsCurrentData paintingsEarlyData
            drawingsCurrentData drawingsEarlyData artworksData
            slug period = Some page
       /\ others
          = filter (fun a => negb (strict_equal (art_id a) (art_id artwork)))
                   (artworks page)
       /\ (forall a, In a others ->
                     strict_equal (art_id a) (art_id artwork) = false)
       /\ (length others < length (artworks page))%nat
       /\ (forall a, In a others ->
            exists data n,
              pageDataMap paintingsCurrentData paintingsEarlyData
                drawingsCurrentData drawingsEarlyData
                (slug ++ "-" ++ period) = Some data
              /\ In n (file_artworks data)
              /\ artworksData (text n) = Some a).
Proof.
  intros view. subst view. rewrite artworkPage_handler.
  destruct (artworkHandler_views slug period artworkId) as [Shown Others].
  destruct (matches_id artworkId).
  - split.
    + rewrite Shown. tauto.
    + intros artwork page others E. split; [reflexivity|]. now apply Others.
  - split; [|discriminate]. split; [congruence|]. intros [? _]. discriminate.
Qed.

(** X15.  The links of a page lead to its artworks.  Take a loaded page
    whose file names the slug and the period it is stored under, and one
    of its artworks, stored in the artworks file under its own id, which
    is written in digits only (a non-negative integer below 10^21).  The
    link [ArtworkListItem] renders for it is [/slug/period/id]; the
    artwork route matches that address and shows that artwork with the
    same page and the page's other artworks. *)
Theorem links_lead_to_details slug period page a :
  loadPageData paintingsCurrentData paintingsEarlyData
    drawingsCurrentData drawingsEarlyData artworksData slug period
  = Some page ->
  In a (artworks page) ->
  Pages.slug page = slug ->
  Pages.period page = Some period ->
  artworksData (text (art_id a)) = Some a ->
  matches_id (text (art_id a)) = true ->
  href (ArtworkListItem a page)
  = "/" ++ slug ++ "/" ++ period ++ "/" ++ text (art_id a)
  /\ artworkPage paintingsCurrentData paintingsEarlyData
       drawingsCurrentData drawingsEarlyData artworksData
       slug period (text (art_id a))
     = ArtworkDetail a page
         (filter (fun b => negb (strict_equal (art_id b) (art_id a)))
                 (artworks page)).
Proof.
  intros L Hin Hs Hp Ha Hd.
  assert (Hn : art_id a <> NaN).
  { intros E. rewrite E in Hd. discriminate. }
  split.
  - unfold ArtworkListItem. cbn [href]. now rewrite Hs, Hp.
  - rewrite artworkPage_handler, Hd. unfold artworkHandler, loadArtwork.
    pose proof (loadPageData_defined slug period) as D.
    rewrite L in D. simpl in D. rewrite <- D, L, Ha. simpl.
    destruct (find _ (artworks page)) as [x|] eqn:F; [reflexivity|].
    pose proof (find_none _ _ F a Hin) as N. simpl in N.
    now rewrite (strict_equal_refl _ Hn) in N.
Qed.

End DataFacts.

Lemma artwork_page_views_witness :
  artworkPage (threeIds "paintings" "current") (threeIds "paintings" "early")
    (threeIds "drawings" "current") (threeIds "drawings" "early")
    twoArtworks "paintings" "current" "7"
  <> NotFound
  /\ (length [artworkOf 9 "Estuary"] < 2)%nat.
Proof.
  pose proof (artwork_page_views
                (threeIds "paintings" "current") (threeIds "paintings" "early")
                (threeIds "drawings" "current") (threeIds "drawings" "early")
                twoArtworks "paintings" "current" "7") as [Shown Others].
  split.
  - apply Shown. split; [reflexivity|]. split; [reflexivity|].
    exists (artworkOf 7 "Harbour"). eexists. exists (artworkOf 7 "Harbour").
    split; [reflexivity|]. split; [reflexivity|].
    split; [left|]; reflexivity.
  - exact (proj1 (proj2 (proj2 (proj2 (proj2 (proj2
             (Others (artworkOf 7 "Harbour") _ [artworkOf 9 "Estuary"]
                     eq_refl))))))).
Defined.

Lemma links_lead_to_details_witness :
  artworkPage (threeIds "paintings" "current") (threeIds "paintings" "early")
    (threeIds "drawings" "current") (threeIds "drawings" "early")
    twoArtworks "paintings" "current" "9"
  = ArtworkDetail (artworkOf 9 "Estuary")
      {| slug := "paintings"; period := Some "current"; title := "Paintings";
         artworks := [artworkOf 7 "Harbour"; artworkOf 9 "Estuary"] |}
      [artworkOf 7 "Harbour"].
Proof.
  refine (proj2 (links_lead_to_details
                   (threeIds "paintings" "current") (threeIds "paintings" "early")
                   (threeIds "drawings" "current") (threeIds "drawings" "early")
                   twoArtworks "paintings" "current"
                   {| slug := "paintings"; period := Some "current";
                      title := "Paintings";
                      artworks := [artworkOf 7 "Harbour"; artworkOf 9 "Estuary"] |}
                   (artworkOf 9 "Estuary")
                   eq_refl _ eq_refl eq_refl eq_refl eq_refl)).
  right. left. reflexivity.
Defined.

End PagesFacts.

(** * The migration scripts *)

Module MigrationFacts.

Import JS More Migration Validator StringFacts.

Lemma split_clean c s p : In p (split c s) -> has_char c p = false.
Proof.
  revert p. induction s as [|x s IH]; simpl; intros p.
  - now intros [<-|[]].
  - destruct (Ascii.eqb x c) eqn:E.
    + intros [<-|H]; [reflexivity | now apply IH].
    + pose proof (split_nonnil c s) as Hne.
      destruct (split c s) as [|h t]; [contradiction|].
      intros [<-|H].
      * simpl. rewrite E. apply IH. now left.
      * apply IH. now right.
Qed.

Lemma join_split c s : join (String c EmptyString) (split c s) = s.
Proof.
  induction s as [|x s IH]; simpl; [reflexivity|].
  pose proof (split_nonnil c s) as Hne.
  destruct (Ascii.eqb_spec x c) as [->|N];
    destruct (split c s) as [|h t]; try contradiction.
  - simpl in *. now rewrite IH.
  - destruct t; simpl in *; now rewrite <- IH.
Qed.

Lemma join_snoc sep init x :
  exists dir,
    join sep (init ++ [x]) = dir ++ x
    /\ (dir = EmptyString \/ exists d, dir = d ++ sep).
Proof.
  induction init as [|a init (dir & E & D)].
  - exists EmptyString. auto.
  - exists (a ++ sep ++ dir). split.
    + change ((a :: init) ++ [x])%list with (a :: (init ++ [x]))%list.
      destruct (init ++ [x])%list eqn:L; [now destruct init|].
      change (join sep (a :: s :: l)) with (a ++ sep ++ join sep (s :: l)).
      now rewrite E, !append_assoc.
    + right. destruct D as [->|(d & ->)].
      * exists a. now rewrite append_nil_r.
      * exists (a ++ sep ++ d). now rewrite !append_assoc.
Qed.

(** A string ends with the last piece of its split, after a separator
    when there is more than one piece. *)
Lemma split_last c s :
  exists dir,
    s = dir ++ last (split c s) EmptyString
    /\ (dir = EmptyString \/ exists d, dir = d ++ String c EmptyString).
Proof.
  pose proof (join_split c s) as J.
  rewrite (app_removelast_last EmptyString (split_nonnil c s)) in J.
  destruct (join_snoc (String c EmptyString) (removelast (split c s))
              (last (split c s) EmptyString)) as (dir & E & D).
  exists dir. split; [congruence | exact D].
Qed.

Lemma last_in {A} (l : list A) d : l <> [] -> In (last l d) l.
Proof.
  intros H. rewrite (app_removelast_last d H) at 2.
  apply in_or_app. right. now left.
Qed.

Lemma nonempty_dot_star f :
  (0 <? String.length (dot_star f))%nat
  = match f with
    | EmptyString => false
    | String c _ => negb (is_line_terminator c)
    end.
Proof. destruct f as [|c r]; [reflexivity|]. simpl. now destruct (is_line_terminator c). Qed.

(** X16.  From the S3 address to the validator.  The file name the
    migration takes from an address is its part after the last slash:
    it holds no slash and the address ends with it.  The address written
    in its place is recognised as an image address by the validator, and
    passes the validator's structure test exactly when the file name is
    not empty and does not start with a line break; an S3 address that
    ends with a slash is therefore migrated to an address the validator
    rejects. *)
Theorem migrated_urls_validate s3Url :
  let filename := getFilenameFromUrl s3Url in
  has_char "/" filename = false
  /\ (exists dir, s3Url = dir ++ filename
                  /\ (dir = EmptyString \/ exists d, dir = d ++ "/"))
  /\ migratedUrl s3Url
     = "https://images.jane-perry.com/cdn-cgi/image/format=auto,quality=85/"
       ++ filename
  /\ isImageUrl (migratedUrl s3Url) = true
  /\ validateCloudflareImageUrl (migratedUrl s3Url)
     = match filename with
       | EmptyString => false
       | String c _ => negb (is_line_terminator c)
       end.
Proof.
  intros filename. unfold migratedUrl. fold filename.
  split; [|split; [|split; [|split]]].
  - apply (split_clean "/" s3Url). apply last_in, split_nonnil.
  - apply split_last.
  - reflexivity.
  - unfold isImageUrl.
    replace (includes "/cdn-cgi/image/" (optimizedUrl filename)) with true;
      [now rewrite orb_true_r|].
    symmetry.
    apply (includes_app "/cdn-cgi/image/" "https://images.jane-perry.com"
                        ("format=auto,quality=85/" ++ filename)).
  - unfold validateCloudflareImageUrl.
    replace (includes "/cdn-cgi/image/" (optimizedUrl filename)) with true.
    2:{ symmetry.
        apply (includes_app "/cdn-cgi/image/" "https://images.jane-perry.com"
                            ("format=auto,quality=85/" ++ filename)). }
    replace (url_match (optimizedUrl filename))
      with (Some ("format=auto,quality=85", dot_star filename))
      by reflexivity.
    rewrite nonempty_dot_star. reflexivity.
Qed.

End MigrationFacts.
